(** * musdb (leakage-removal variant): the [DB] index, target composition,
      index lookup and estimate writer of [src/musdb/__init__.py]

    The development embeds the methods of class [DB] as Rocq functions over
    - an explicit tree model of the file system ([os.walk], [os.path.exists],
      [os.makedirs] and the codec's file write act on it),
    - an explicit store of [Source] objects (a [Source] is shared by the
      track's [sources] dict and by every [Target] that lists it, and
      [create_targets] mutates its [gain] through that sharing),
    - a small state-and-exception monad for the Python exceptions that the
      modelled code can raise.

    Python dicts keep insertion order and three loops of the source iterate
    over [dict.items()], so dicts are association lists with Python's
    assignment semantics (overwrite in place, else append). *)

From Stdlib Require Import ZArith Floats.
From stdpp Require Import base option list strings sorting.

Set Default Proof Using "Type".
Open Scope string_scope.
Open Scope list_scope.
Open Scope Z_scope.

(** ** Python values *)

(** A YAML / Python number: an [int] or a [float] (IEEE binary64). *)
Inductive number :=
| NInt (z : Z)
| NFloat (f : float).

(** The binary64 value nearest to an int (ties to even); infinity for an int
    beyond the binary64 range. *)
Definition round_int (z : Z) : float :=
  SF2Prim (binary_normalize prec emax z 0 false).

(** [float(x)] on a number.  A float is returned as it is; an int is rounded
    to the nearest binary64 value, and [None] stands for the [OverflowError]
    ("int too large to convert to float") that CPython raises when that
    value is not finite. *)
Definition py_float (x : number) : option float :=
  match x with
  | NInt z =>
      let f := round_int z in
      if PrimFloat.is_infinity f then None else Some f
  | NFloat f => Some f
  end.

(** Exact comparison of an int with a float, as CPython's mixed [==] does. *)
Definition int_eq_float (z : Z) (f : float) : bool :=
  match Prim2SF f with
  | S754_zero _ => z =? 0
  | S754_finite s m e =>
      let v := if s then Z.neg m else Z.pos m in
      if 0 <=? e then z =? v * 2 ^ e else z * 2 ^ (- e) =? v
  | _ => false
  end.

Definition number_eq (x y : number) : bool :=
  match x, y with
  | NInt a, NInt b => a =? b
  | NFloat a, NFloat b => PrimFloat.eqb a b
  | NInt a, NFloat b => int_eq_float a b
  | NFloat a, NInt b => int_eq_float b a
  end.

(** [x == y] where each side is [None] or a number. *)
Definition py_eq (x y : option number) : bool :=
  match x, y with
  | None, None => true
  | Some a, Some b => number_eq a b
  | _, _ => false
  end.

(** ** Exceptions and the state-and-exception monad *)

Inductive exn :=
| RuntimeError (msg : string)
| AttributeError (attr : string)
| KeyError (key : string)
| ValueError
| OverflowError
| OSError.

Inductive result (A : Type) :=
| Ok (a : A)
| Raise (e : exn).
Arguments Ok {A} a.
Arguments Raise {A} e.

(** A computation over a mutable state [St] that returns an [A] or raises. *)
Definition M (St A : Type) : Type := St -> result (A * St).

Definition ret {St A} (a : A) : M St A := fun st => Ok (a, st).
Definition raise {St A} (e : exn) : M St A := fun _ => Raise e.
Definition bind {St A B} (m : M St A) (k : A -> M St B) : M St B :=
  fun st => match m st with
            | Ok (a, st') => k a st'
            | Raise e => Raise e
            end.

Notation "'let*' x := m 'in' k" := (bind m (fun x => k))
  (at level 10, x pattern, m at level 100, k at level 200, only parsing).

(** [float(x)] as an expression. *)
Definition float_ {St} (x : number) : M St float :=
  match py_float x with
  | Some f => ret f
  | None => raise OverflowError
  end.

(** [for x in l: body], where [s] holds the variables the loop updates. *)
Fixpoint for_ {St A S} (l : list A) (body : A -> S -> M St S) (s : S) : M St S :=
  match l with
  | [] => ret s
  | x :: l' => let* s' := body x s in for_ l' body s'
  end.

(** ** Ordered dicts *)

Definition dict (V : Type) : Type := list (string * V).

Definition keys {V} (d : dict V) : list string := d.*1.

Fixpoint dict_get {V} (k : string) (d : dict V) : option V :=
  match d with
  | [] => None
  | (k', v) :: d' => if String.eqb k k' then Some v else dict_get k d'
  end.

(** [d[k] = v]: an existing key keeps its position, a new key goes last. *)
Fixpoint dict_set {V} (k : string) (v : V) (d : dict V) : dict V :=
  match d with
  | [] => [(k, v)]
  | (k', v') :: d' =>
      if String.eqb k k' then (k, v) :: d' else (k', v') :: dict_set k v d'
  end.

(** [d[k]] as an expression: [KeyError] on a missing key. *)
Definition getitem {St V} (d : dict V) (k : string) : M St V :=
  match dict_get k d with
  | Some v => ret v
  | None => raise (KeyError k)
  end.

(** ** Paths and the file system *)

(** A path is its list of components; [os.path.join] of a path with relative
    one-component names appends them.  Track, variant, subset, instrument and
    configured file names are taken to be single components. *)
Definition pathname : Type := list string.

Definition op_join (p : pathname) (names : list string) : pathname :=
  p ++ names.

(** Audio data is an opaque buffer to this code. *)
Definition buffer : Type := list Z.

(** A file holds what the codec wrote: samples and their sample rate. *)
#[warning="-register-all"]
Inductive node :=
| File (data : buffer) (rate : option number)
| Dir (entries : list (string * node)).

Definition is_dir (n : node) : bool :=
  match n with Dir _ => true | File _ _ => false end.

Fixpoint lookup_path (p : pathname) (n : node) : option node :=
  match p with
  | [] => Some n
  | c :: p' =>
      match n with
      | Dir es => match dict_get c es with
                  | Some ch => lookup_path p' ch
                  | None => None
                  end
      | File _ _ => None
      end
  end.

(** [os.path.exists(p)] *)
Definition os_path_exists (fs : node) (p : pathname) : bool :=
  match lookup_path p fs with Some _ => true | None => false end.

Definition dirnames (es : list (string * node)) : list string :=
  (filter (fun e => is_dir e.2 = true) es).*1.
Definition filenames (es : list (string * node)) : list string :=
  (filter (fun e => is_dir e.2 = false) es).*1.

(** [os.walk], top-down: the triple of a directory, then the walks of its
    sub-directories in directory order.  A walk of something that is not a
    directory yields nothing (the scan error is swallowed).  The tree has no
    symbolic links. *)
Fixpoint walk (top : pathname) (n : node)
    : list (pathname * list string * list string) :=
  match n with
  | File _ _ => []
  | Dir es =>
      (top, dirnames es, filenames es) ::
      (fix sub (l : list (string * node)) :=
         match l with
         | [] => []
         | (c, ch) :: r => walk (op_join top [c]) ch ++ sub r
         end) es
  end.

Definition os_walk (fs : node) (top : pathname)
    : list (pathname * list string * list string) :=
  match lookup_path top fs with
  | Some n => walk top n
  | None => []
  end.

(** [sorted] on strings: code-point order. *)
Definition str_le (a b : string) : Prop := String.leb a b = true.
#[local] Instance str_le_dec a b : Decision (str_le a b).
Proof. unfold str_le. apply _. Defined.

Definition sorted (l : list string) : list string := merge_sort str_le l.

(** ** The configuration document ([self.setup], the loaded YAML mapping) *)

Module Setup.
Record t := {
  sample_rate : option number;
  sources : dict string;
  targets : dict (dict number);
  stem_ids : dict Z;
  validation_tracks : list string;
  mixture : string;
}.
End Setup.

(** ** Audio classes

    [audio_classes.py] is not part of the sources at hand; the three records
    list the attributes that [DB] passes to the constructors or assigns.  The
    back-reference to the owning track, the first constructor argument of
    [Source] and [Target], is not represented: nothing here reads it. *)

(** A reference to a [Source] object: its address in the store. *)
Definition addr : Type := nat.

Module Source.
(** Modelled from the spec: [audio_classes.Source] is missing; a Source has
    [name], [path], [stem_id], [sample_rate] and a [gain] that is
    initialized to 1.0. *)
Record t := {
  name : string;
  path : pathname;
  stem_id : Z;
  sample_rate : option number;
  gain : float;
}.

Definition set_gain (g : float) (s : t) : t :=
  {| name := name s; path := path s; stem_id := stem_id s;
     sample_rate := sample_rate s; gain := g |}.
End Source.

Module Target.
(** Modelled from the spec: [audio_classes.Target] is missing; a Target has
    a [name] and the ordered sequence of Source references of its mix. *)
Record t := {
  sources : list addr;
  name : string;
}.
End Target.

Module MultiTrack.
(** Modelled from the spec: [audio_classes.MultiTrack] is missing; a Track
    has [name], [path], [subset], [is_wav], [stem_id], [sample_rate] and owns
    the [sources] and [targets] mappings that [DB] assigns after
    construction. *)
Record t := {
  name : string;
  path : pathname;
  subset : string;
  is_wav : bool;
  stem_id : Z;
  sample_rate : option number;
  sources : dict addr;
  targets : dict Target.t;
}.

Definition set_sources (d : dict addr) (x : t) : t :=
  {| name := name x; path := path x; subset := subset x; is_wav := is_wav x;
     stem_id := stem_id x; sample_rate := sample_rate x;
     sources := d; targets := targets x |}.

Definition set_targets (d : dict Target.t) (x : t) : t :=
  {| name := name x; path := path x; subset := subset x; is_wav := is_wav x;
     stem_id := stem_id x; sample_rate := sample_rate x;
     sources := sources x; targets := d |}.

(** Modelled from the spec: the [rate] property is missing; estimates are
    tagged with the track's sample rate. *)
Definition rate (x : t) : option number := sample_rate x.
End MultiTrack.

(** The store of [Source] objects; allocation appends. *)
Abbreviation heap := (list Source.t).

(** Modelled from the spec: the constructor [Source(track, name=, path=,
    stem_id=, sample_rate=)] of the missing [audio_classes]; [gain] starts
    at 1.0. *)
Definition new_Source (name : string) (p : pathname) (stem_id : Z)
    (sample_rate : option number) : M heap addr :=
  fun h =>
    Ok (length h,
        h ++ [{| Source.name := name; Source.path := p;
                 Source.stem_id := stem_id;
                 Source.sample_rate := sample_rate;
                 Source.gain := 1%float |}]).

(** [obj.gain = g] through the reference [a]. *)
Definition setattr_gain (a : addr) (g : float) : M heap unit :=
  fun h => Ok (tt, alter (Source.set_gain g) a h).

(** Modelled from the spec: the constructor [MultiTrack(name=, path=, subset=,
    is_wav=, stem_id=, sample_rate=)] of the missing [audio_classes]; the two
    mappings are empty until [DB] assigns them. *)
Definition new_MultiTrack (name : string) (p : pathname) (subset : string)
    (is_wav : bool) (stem_id : Z) (sample_rate : option number) : MultiTrack.t :=
  {| MultiTrack.name := name; MultiTrack.path := p;
     MultiTrack.subset := subset; MultiTrack.is_wav := is_wav;
     MultiTrack.stem_id := stem_id; MultiTrack.sample_rate := sample_rate;
     MultiTrack.sources := []; MultiTrack.targets := [] |}.

(** ** The [DB] object *)

Module DB.
(** The attributes of [self].  [sample_rate] is [None] while the attribute
    has never been assigned (reading it raises [AttributeError]) and
    [Some v] once it holds the Python value [v] ([None] or a number).
    [data_path] is a path: the constructor's default [None] cannot be joined
    with a subset name and is excluded by the type. *)
Record t := {
  root : string;
  setup : Setup.t;
  sample_rate : option (option number);
  sources_names : list string;
  targets_names : list string;
  is_wav : bool;
  data_path : pathname;
  instrument : string;
  tracks : list MultiTrack.t;
}.

Definition set_tracks (l : list MultiTrack.t) (x : t) : t :=
  {| root := root x; setup := setup x; sample_rate := sample_rate x;
     sources_names := sources_names x; targets_names := targets_names x;
     is_wav := is_wav x; data_path := data_path x;
     instrument := instrument x; tracks := l |}.
End DB.

(** [self.sample_rate] as an expression. *)
Definition getattr_sample_rate {St} (self : DB.t) : M St (option number) :=
  match DB.sample_rate self with
  | Some v => ret v
  | None => raise (AttributeError "sample_rate")
  end.

(** A [subsets] or [names] argument: a single [str] or a list of them. *)
Inductive str_or_list :=
| Str (s : string)
| List (l : list string).

(** *** [DB.create_targets] (lines 222-243) *)

(** Lines 231-235, the body of [for source, gain in target_srcs.items()].
    The assignment of line 233 evaluates [float(gain)] before its target. *)
Definition add_target_source (track : MultiTrack.t) (item : string * number)
    (target_sources : list addr) : M heap (list addr) :=
  let '(source, gain) := item in
  if bool_decide (source ∈ keys (MultiTrack.sources track)) then
    let* g := float_ gain in
    let* a := getitem (MultiTrack.sources track) source in
    let* _ := setattr_gain a g in
    let* a' := getitem (MultiTrack.sources track) source in
    ret (target_sources ++ [a'])
  else ret target_sources.

(** Lines 228-242, the body of [for name, target_srcs in targets.items()]. *)
Definition add_target (track : MultiTrack.t) (item : string * dict number)
    (targets : dict Target.t) : M heap (dict Target.t) :=
  let '(name, target_srcs) := item in
  let* target_sources := for_ target_srcs (add_target_source track) [] in
  match target_sources with
  | _ :: _ =>
      ret (dict_set name {| Target.sources := target_sources;
                            Target.name := name |} targets)
  | [] => ret targets
  end.

Definition create_targets (self : DB.t) (track : MultiTrack.t)
    : M heap (dict Target.t) :=
  for_ (Setup.targets (DB.setup self)) (add_target track) [].

(** *** [DB.load_mus_tracks] (lines 137-220) *)

(** Lines 156-160. *)
Definition normalize_subsets (subsets : option str_or_list) : list string :=
  match subsets with
  | Some (Str s) => [s]
  | Some (List l) => l
  | None => ["train"; "test"]
  end.

(** Lines 172-176: whether the [continue] of the split filter is taken. *)
Definition split_skips (self : DB.t) (subset : string) (split : option string)
    (track_name : string) : bool :=
  if String.eqb subset "train" then
    if bool_decide (split = Some "train")
       && bool_decide (track_name ∈ Setup.validation_tracks (DB.setup self))
    then true
    else if bool_decide (split = Some "valid")
            && negb (bool_decide
                       (track_name ∈ Setup.validation_tracks (DB.setup self)))
    then true
    else false
  else false.

(** Lines 201-214, the body of [for src, source_file in sources.items()]. *)
Definition add_source (self : DB.t) (fs : node) (track_folder : pathname)
    (folder_num : string) (item : string * string) (sources : dict addr)
    : M heap (dict addr) :=
  let '(src, source_file) := item in
  let abs_path := op_join track_folder [folder_num; source_file] in
  if os_path_exists fs abs_path then
    let* stem_id := getitem (Setup.stem_ids (DB.setup self)) src in
    let* sample_rate := getattr_sample_rate self in
    let* a := new_Source src abs_path stem_id sample_rate in
    ret (dict_set src a sources)
  else ret sources.

(** Lines 182-218, the body of [for folder_num in sorted(lvl2_folders)]. *)
Definition add_track (self : DB.t) (fs : node) (subset track_name : string)
    (track_folder : pathname) (folder_num : string) (tracks : list MultiTrack.t)
    : M heap (list MultiTrack.t) :=
  let* stem_id := getitem (Setup.stem_ids (DB.setup self)) "mixture" in
  let* sample_rate := getattr_sample_rate self in
  let track :=
    new_MultiTrack track_name
      (op_join track_folder [folder_num; Setup.mixture (DB.setup self)])
      subset (DB.is_wav self) stem_id sample_rate in
  let* sources :=
    for_ (Setup.sources (DB.setup self))
         (add_source self fs track_folder folder_num) [] in
  let track := MultiTrack.set_sources sources track in
  let* targets := create_targets self track in
  let track := MultiTrack.set_targets targets track in
  ret (tracks ++ [track]).

(** Lines 172-218, the body of [for track_name in sorted(folders)]. *)
Definition add_track_name (self : DB.t) (fs : node) (subset : string)
    (subset_folder : pathname) (split : option string) (track_name : string)
    (tracks : list MultiTrack.t) : M heap (list MultiTrack.t) :=
  if split_skips self subset split track_name then ret tracks
  else
    let track_folder :=
      op_join subset_folder [DB.instrument self; track_name] in
    for_ (os_walk fs track_folder)
         (fun '(_, lvl2_folders, _) =>
            for_ (sorted lvl2_folders)
                 (add_track self fs subset track_name track_folder))
         tracks.

(** Lines 167-218, the body of [for subset in subsets]. *)
Definition add_subset (self : DB.t) (fs : node) (split : option string)
    (subset : string) (tracks : list MultiTrack.t)
    : M heap (list MultiTrack.t) :=
  let subset_folder := op_join (DB.data_path self) [subset] in
  for_ (os_walk fs (op_join subset_folder [DB.instrument self]))
       (fun '(_, folders, _) tracks =>
          if DB.is_wav self then
            for_ (sorted folders)
                 (add_track_name self fs subset subset_folder split) tracks
          else ret tracks)
       tracks.

Definition load_mus_tracks (self : DB.t) (fs : node)
    (subsets : option str_or_list) (split : option string)
    : M heap (list MultiTrack.t) :=
  let subsets := normalize_subsets subsets in
  if bool_decide (subsets ≠ ["train"]) && bool_decide (split ≠ None) then
    raise (RuntimeError "Subset has to set to `train` when split is used")
  else for_ subsets (add_subset self fs split) [].

(** *** [DB.__init__] (lines 72-106)

    Reading and parsing the setup file is the configuration loader's work:
    the loaded document [setup] stands for the [setup_file] argument, and
    [os.path.expanduser] is taken as the identity. *)
(** Lines 86-105: the attributes that [self] holds when [load_mus_tracks]
    is called ([tracks] is assigned from its result). *)
Definition DB_new (root : string) (setup : Setup.t) (is_wav : bool)
    (sample_rate : option number) (data_path : pathname) (instrument : string)
    : DB.t :=
  {| DB.root := root; DB.setup := setup;
     DB.sample_rate :=
       if negb (py_eq sample_rate (Setup.sample_rate setup))
       then Some sample_rate else None;
     DB.sources_names := keys (Setup.sources setup);
     DB.targets_names := keys (Setup.targets setup);
     DB.is_wav := is_wav; DB.data_path := data_path;
     DB.instrument := instrument; DB.tracks := [] |}.

Definition DB_init (root : option string) (setup : Setup.t) (is_wav : bool)
    (subsets : option str_or_list) (split : option string)
    (sample_rate : option number) (data_path : pathname) (instrument : string)
    (fs : node) : M heap DB.t :=
  match root with
  | None => raise (RuntimeError "Variable `MUSDB_PATH` has not been set.")
  | Some root =>
      let self := DB_new root setup is_wav sample_rate data_path instrument in
      let* tracks := load_mus_tracks self fs subsets split in
      ret (DB.set_tracks tracks self)
  end.

(** *** [DB.get_track_indices_by_names] (lines 115-134) *)

(** [l.index(x)]: the first position of [x], [ValueError] when absent. *)
Fixpoint list_index (x : string) (l : list string) : option nat :=
  match l with
  | [] => None
  | y :: l' => if String.eqb x y then Some O else S <$> list_index x l'
  end.

Definition py_index {St} (l : list string) (x : string) : M St nat :=
  match list_index x l with
  | Some i => ret i
  | None => raise ValueError
  end.

Definition get_track_indices_by_names {St} (self : DB.t) (names : str_or_list)
    : M St (list nat) :=
  let names := match names with Str s => [s] | List l => l end in
  for_ names
       (fun name acc =>
          let* i := py_index (MultiTrack.name <$> DB.tracks self) name in
          ret (acc ++ [i]))
       [].

(** *** [DB.save_estimates] (lines 245-280) *)

(** The chain of fresh directories [c1/c2/...] below a new entry. *)
Fixpoint fresh_dirs (p : pathname) : node :=
  match p with
  | [] => Dir []
  | c :: p' => Dir [(c, fresh_dirs p')]
  end.

(** [os.makedirs(p)] (with [exist_ok=False]) on the tree: missing components
    are created; an existing leaf, or a regular file on the way, is an
    [OSError]. *)
Fixpoint makedirs (p : pathname) (n : node) : result node :=
  match p with
  | [] => Raise OSError
  | c :: p' =>
      match n with
      | File _ _ => Raise OSError
      | Dir es =>
          match dict_get c es with
          | Some ch =>
              match makedirs p' ch with
              | Ok ch' => Ok (Dir (dict_set c ch' es))
              | Raise e => Raise e
              end
          | None => Ok (Dir (dict_set c (fresh_dirs p') es))
          end
      end
  end.

Definition os_makedirs (p : pathname) : M node unit :=
  fun fs => match makedirs p fs with
            | Ok fs' => Ok (tt, fs')
            | Raise e => Raise e
            end.

(** The codec's file write: the regular file at [p] is created or replaced;
    a missing parent directory, or a directory at [p], is an [OSError]. *)
Fixpoint write_file (p : pathname) (f : node) (n : node) : result node :=
  match p with
  | [] => Raise OSError
  | c :: p' =>
      match n with
      | File _ _ => Raise OSError
      | Dir es =>
          match p' with
          | [] =>
              match dict_get c es with
              | Some (Dir _) => Raise OSError
              | _ => Ok (Dir (dict_set c f es))
              end
          | _ :: _ =>
              match dict_get c es with
              | Some ch =>
                  match write_file p' f ch with
                  | Ok ch' => Ok (Dir (dict_set c ch' es))
                  | Raise e => Raise e
                  end
              | None => Raise OSError
              end
          end
      end
  end.

(** [stempeg.write_audio(path=, data=, sample_rate=)] *)
Definition write_audio (p : pathname) (data : buffer)
    (sample_rate : option number) : M node unit :=
  fun fs => match write_file p (File data sample_rate) fs with
            | Ok fs' => Ok (tt, fs')
            | Raise e => Raise e
            end.

Definition save_estimates (self : DB.t) (user_estimates : dict buffer)
    (track : MultiTrack.t) (estimates_dir : pathname) (write_stems : bool)
    : M node unit :=
  let track_estimate_dir :=
    op_join estimates_dir [MultiTrack.subset track; MultiTrack.name track] in
  let* _ := (fun fs =>
               if negb (os_path_exists fs track_estimate_dir)
               then os_makedirs track_estimate_dir fs
               else ret tt fs) in
  if write_stems then ret tt
  else
    for_ user_estimates
         (fun '(target, estimate) _ =>
            let target_path :=
              op_join track_estimate_dir [String.append target ".wav"] in
            write_audio target_path estimate (MultiTrack.rate track))
         tt.

(** ** A small data set for the examples

    Two training songs: "Song A" with variants "0" (drums and bass) and "1"
    (bass only), and the validation track "Song B" with variant "0" (drums
    only); one test song "Song C" laid out without variant folders. *)

Definition wav : node := File [] None.

Definition ex_setup : Setup.t :=
  {| Setup.sample_rate := Some (NInt 44100);
     Setup.sources := [("drums", "drums.wav"); ("bass", "bass.wav")];
     Setup.targets :=
       [("drums", [("drums", NInt 1)]);
        ("accompaniment", [("drums", NFloat 0.5); ("bass", NInt 1)])];
     Setup.stem_ids := [("mixture", 0); ("drums", 1); ("bass", 2)];
     Setup.validation_tracks := ["Song B"];
     Setup.mixture := "mixture.wav" |}.

Definition ex_fs : node :=
  Dir [("data", Dir [
    ("train", Dir [("drums", Dir [
       ("Song B", Dir [("0", Dir [("mixture.wav", wav); ("drums.wav", wav)])]);
       ("Song A", Dir [
          ("1", Dir [("mixture.wav", wav); ("bass.wav", wav)]);
          ("0", Dir [("mixture.wav", wav); ("drums.wav", wav);
                     ("bass.wav", wav)])])])]);
    ("test", Dir [("drums", Dir [
       ("Song C", Dir [("mixture.wav", wav)])])])])].

(** The object that [DB(root, is_wav=True, data_path="data")] holds, the
    default [sample_rate=None] differing from the configured 44100. *)
Definition ex_db : DB.t := DB_new "." ex_setup true None ["data"] "drums".

(** The same with the default [is_wav=False]. *)
Definition ex_db_stems : DB.t := DB_new "." ex_setup false None ["data"] "drums".

(** The same configuration with a drums gain beyond the binary64 range, and
    the object over it. *)
Definition ex_setup_big : Setup.t :=
  {| Setup.sample_rate := Setup.sample_rate ex_setup;
     Setup.sources := Setup.sources ex_setup;
     Setup.targets := [("drums", [("drums", NInt (2 ^ 1024))])];
     Setup.stem_ids := Setup.stem_ids ex_setup;
     Setup.validation_tracks := Setup.validation_tracks ex_setup;
     Setup.mixture := Setup.mixture ex_setup |}.

Definition ex_db_big : DB.t := DB_new "." ex_setup_big true None ["data"] "drums".

(** * Notions used to state the properties *)

(** The references that one target specification resolves to. *)
Definition resolved (sources : dict addr) (target_srcs : dict number)
    : list addr :=
  omap (fun it => dict_get it.1 sources) target_srcs.

(** The declared (source, gain) pair is one on which line 233 raises: its
    source is one of [names], the names of the track's sources, and its gain
    does not convert. *)
Definition overflows (names : list string) (it : string * number) : bool :=
  bool_decide (it.1 ∈ names) && bool_decide (py_float it.2 = None).

(** Some pair of the target specification [targets] is such a pair. *)
Definition gains_overflow (names : list string) (targets : dict (dict number))
    : bool :=
  existsb (fun it => existsb (overflows names) it.2) targets.

(** Every gain that [targets] declares for one of the source names [names]
    converts to a float. *)
Definition gains_convert (names : list string) (targets : dict (dict number))
    : Prop :=
  forall name spec src g,
    (name, spec) ∈ targets -> (src, g) ∈ spec -> src ∈ names ->
    is_Some (py_float g).

(** The store after one declared (source, gain) pair whose gain converts. *)
Definition gain_step (sources : dict addr) (h : heap) (it : string * number)
    : heap :=
  match dict_get it.1 sources, py_float it.2 with
  | Some a, Some g => alter (Source.set_gain g) a h
  | _, _ => h
  end.

Definition target_step (sources : dict addr) (targets : dict Target.t)
    (it : string * dict number) : dict Target.t :=
  match resolved sources it.2 with
  | [] => targets
  | l => dict_set it.1 {| Target.sources := l; Target.name := it.1 |} targets
  end.

(** The failed lookups of the traversal: a name without stem id, or the
    object's [sample_rate] attribute. *)
Definition lookup_error (e : exn) : Prop :=
  (exists k, e = KeyError k) \/ e = AttributeError "sample_rate".

(** What building a track can raise: a failed lookup, or the [float(gain)]
    of line 233. *)
Definition traversal_error (e : exn) : Prop :=
  lookup_error e \/ e = OverflowError.

(** The check of lines 162-163, as a proposition. *)
Definition split_misused (subsets : option str_or_list) (split : option string)
    : Prop :=
  normalize_subsets subsets ≠ ["train"] /\ split ≠ None.

#[local] Instance split_misused_dec subsets split :
  Decision (split_misused subsets split).
Proof. unfold split_misused. apply _. Defined.

(** The folder of a track name (line 178). *)
Definition track_folder_of (self : DB.t) (subset track_name : string)
    : pathname :=
  op_join (op_join (DB.data_path self) [subset])
          [DB.instrument self; track_name].

(** The variant folders that the inner walk meets below a track folder, in
    the order of lines 180-181. *)
Definition variants (fs : node) (track_folder : pathname) : list string :=
  flat_map (fun '(_, lvl2_folders, _) => sorted lvl2_folders)
           (os_walk fs track_folder).

(** The track names that the outer walk meets for a subset, in the order of
    lines 168-171. *)
Definition candidates (self : DB.t) (fs : node) (subset : string)
    : list string :=
  flat_map (fun '(_, folders, _) => sorted folders)
           (os_walk fs (op_join (op_join (DB.data_path self) [subset])
                                [DB.instrument self])).

(** A track of the traversal: subset, track name, variant folder. *)
Definition track_key : Type := string * string * string.

Definition name_keys (self : DB.t) (fs : node) (split : option string)
    (subset track_name : string) : list track_key :=
  if split_skips self subset split track_name then []
  else (fun v => (subset, track_name, v))
         <$> variants fs (track_folder_of self subset track_name).

Definition subset_keys (self : DB.t) (fs : node) (split : option string)
    (subset : string) : list track_key :=
  if DB.is_wav self
  then flat_map (name_keys self fs split subset) (candidates self fs subset)
  else [].

Definition track_keys (self : DB.t) (fs : node) (subsets : option str_or_list)
    (split : option string) : list track_key :=
  flat_map (subset_keys self fs split) (normalize_subsets subsets).

(** Lines 182-218 for one key. *)
Definition add_track_key (self : DB.t) (fs : node) (k : track_key)
    (tracks : list MultiTrack.t) : M heap (list MultiTrack.t) :=
  add_track self fs k.1.1 k.1.2 (track_folder_of self k.1.1 k.1.2) k.2 tracks.

(** The sub-directories of the directory at [p]. *)
Definition immediate_subdirs (fs : node) (p : pathname) : list string :=
  match lookup_path p fs with
  | Some (Dir es) => dirnames es
  | _ => []
  end.

(** The reading of the container layout that the traversal would have to
    implement: with [is_wav = False], one track per sub-directory of the
    subset's instrument folder, its path the mixture file inside it. *)
Definition container_layout (self : DB.t) (fs : node) (subset : string)
    (h : heap) : Prop :=
  DB.is_wav self = false ->
  exists tracks h',
    load_mus_tracks self fs (Some (Str subset)) None h = Ok (tracks, h') /\
    Forall2 (fun t name =>
               MultiTrack.name t = name /\
               MultiTrack.path t =
                 op_join (track_folder_of self subset name)
                         [Setup.mixture (DB.setup self)])
            tracks
            (sorted (immediate_subdirs fs
                       (op_join (op_join (DB.data_path self) [subset])
                                [DB.instrument self]))).

(** Line 134, one element of the comprehension. *)
Definition index_step {St} (catalog : list string) (name : string)
    (acc : list nat) : M St (list nat) :=
  let* i := py_index catalog name in ret (acc ++ [i]).

(** Distinct source names of a track refer to distinct objects. *)
Definition distinct_refs (d : dict addr) : Prop :=
  forall s1 s2 a, dict_get s1 d = Some a -> dict_get s2 d = Some a -> s1 = s2.

(** Every reference of the dict is allocated in the store. *)
Definition allocated (d : dict addr) (h : heap) : Prop :=
  forall s a, dict_get s d = Some a -> (a < length h)%nat.

(** The declared names whose file exists below the variant folder. *)
Definition present (fs : node) (track_folder : pathname) (folder_num : string)
    (declared : dict string) (src : string) : Prop :=
  exists file, (src, file) ∈ declared /\
               os_path_exists fs (op_join track_folder [folder_num; file]) = true.

(** The target a specification entry gives rise to, if any. *)
Definition target_of (sources : dict addr) (it : string * dict number)
    : option (string * Target.t) :=
  match resolved sources it.2 with
  | [] => None
  | l => Some (it.1, {| Target.sources := l; Target.name := it.1 |})
  end.

(** A configuration under which no step of the traversal fails: the
    [sample_rate] attribute is assigned, the mixture and every declared
    source have a stem id, and every gain that a target declares for a
    declared source converts to a float. *)
Definition indexable (self : DB.t) : Prop :=
  is_Some (DB.sample_rate self) /\
  is_Some (dict_get "mixture" (Setup.stem_ids (DB.setup self))) /\
  (forall src, src ∈ keys (Setup.sources (DB.setup self)) ->
               is_Some (dict_get src (Setup.stem_ids (DB.setup self)))) /\
  gains_convert (keys (Setup.sources (DB.setup self)))
                (Setup.targets (DB.setup self)).

(** The tree with the node at [p] replaced by [n']. *)
Fixpoint replace_at (p : pathname) (n' : node) (n : node) : node :=
  match p with
  | [] => n'
  | c :: p' =>
      match n with
      | Dir es =>
          match dict_get c es with
          | Some ch => Dir (dict_set c (replace_at p' n' ch) es)
          | None => n
          end
      | File _ _ => n
      end
  end.

(** Every node that exists along [p] is a directory: no regular file stands
    where [p] or one of its parents should be. *)
Fixpoint dirs_along (p : pathname) (n : node) : bool :=
  match n with
  | File _ _ => false
  | Dir es =>
      match p with
      | [] => true
      | c :: p' =>
          match dict_get c es with
          | Some ch => dirs_along p' ch
          | None => true
          end
      end
  end.

(** The directory entries after the write of one estimate. *)
Definition write_entry (rate : option number) (es : list (string * node))
    (it : string * buffer) : list (string * node) :=
  dict_set (String.append it.1 ".wav") (File it.2 rate) es.

(** The sub-directory names of the entry [n] of a directory. *)
Definition subdirs_of (es : list (string * node)) (n : string) : list string :=
  match dict_get n es with
  | Some (Dir vs) => dirnames vs
  | _ => []
  end.

(** The two-level layout of the per-file data set below a subset's
    instrument folder: entry names are unique, the folders inside a track
    folder (the variants) hold no folder of their own, and no variant is
    named like a track folder. *)
Definition two_level (es : list (string * node)) : Prop :=
  NoDup es.*1 /\
  forall n vs v ws,
    (n, Dir vs) ∈ es -> (v, Dir ws) ∈ vs ->
    dirnames ws = [] /\ v ∉ dirnames es.

(** The example tree as another directory listing would give it: the same
    folders and files, entries in a different order. *)
Definition ex_fs_relisted : node :=
  Dir [("data", Dir [
    ("test", Dir [("drums", Dir [
       ("Song C", Dir [("mixture.wav", wav)])])]);
    ("train", Dir [("drums", Dir [
       ("Song A", Dir [
          ("0", Dir [("bass.wav", wav); ("drums.wav", wav);
                     ("mixture.wav", wav)]);
          ("1", Dir [("bass.wav", wav); ("mixture.wav", wav)])]);
       ("Song B", Dir [("0", Dir [("drums.wav", wav);
                                   ("mixture.wav", wav)])])])])])].

(** Two [Source] objects that differ at most in their gain. *)
Definition same_but_gain (s s' : Source.t) : Prop :=
  Source.name s = Source.name s' /\ Source.path s = Source.path s' /\
  Source.stem_id s = Source.stem_id s' /\
  Source.sample_rate s = Source.sample_rate s'.

(** The [Source] object that line 208 builds for the declared entry
    [(src, file)] of a track folder and variant. *)
Definition source_cell (self : DB.t) (track_folder : pathname)
    (folder_num src file : string) (s : Source.t) : Prop :=
  Source.name s = src /\
  Source.path s = op_join track_folder [folder_num; file] /\
  dict_get src (Setup.stem_ids (DB.setup self)) = Some (Source.stem_id s) /\
  DB.sample_rate self = Some (Source.sample_rate s).

(** The gain that [create_targets] leaves on the source [src]: the one of
    the last specification entry that declares it, 1.0 when none does. *)
Definition final_gain (targets : dict (dict number)) (src : string)
    (g : float) : Prop :=
  (forall pre name spec post x,
     targets = pre ++ (name, spec) :: post ->
     NoDup (keys spec) -> (src, x) ∈ spec ->
     (forall it, it ∈ post -> src ∉ keys it.2) ->
     py_float x = Some g) /\
  ((forall it, it ∈ targets -> src ∉ keys it.2) -> g = 1%float).

(** What the store [h] holds for the sources of a track built after the
    store had [n] cells. *)
Definition track_in_store (self : DB.t) (n : nat) (h : heap)
    (t : MultiTrack.t) : Prop :=
  exists track_folder folder_num,
    MultiTrack.path t
      = op_join track_folder [folder_num; Setup.mixture (DB.setup self)] /\
    distinct_refs (MultiTrack.sources t) /\
    forall src a,
      dict_get src (MultiTrack.sources t) = Some a ->
      (n <= a < length h)%nat /\
      exists s file,
        h !! a = Some s /\ (src, file) ∈ Setup.sources (DB.setup self) /\
        source_cell self track_folder folder_num src file s /\
        final_gain (Setup.targets (DB.setup self)) src (Source.gain s).

(** No [Source] object belongs to two tracks. *)
Definition no_shared_source (tracks : list MultiTrack.t) : Prop :=
  forall i j t1 t2 s1 s2 a,
    tracks !! i = Some t1 -> tracks !! j = Some t2 ->
    dict_get s1 (MultiTrack.sources t1) = Some a ->
    dict_get s2 (MultiTrack.sources t2) = Some a ->
    i = j.

(** *** [DB.__getitem__] and [DB.__len__] (lines 108-112)

    [self.tracks[index]] for an integer index: a negative index counts from
    the end, an index out of range raises [IndexError], rendered as [None]. *)
Definition DB_getitem (self : DB.t) (index : Z) : option MultiTrack.t :=
  let n := Z.of_nat (length (DB.tracks self)) in
  let i := if index <? 0 then index + n else index in
  if (i <? 0) || (n <=? i) then None
  else DB.tracks self !! Z.to_nat i.

Definition DB_len (self : DB.t) : nat := length (DB.tracks self).

(** * Properties *)

(** ** Loops in the monad *)

Section for_loops.
Context {St A S : Type}.
Implicit Types (l : list A) (body : A -> S -> M St S).

Lemma for_nil body s st : for_ [] body s st = Ok (s, st).
Proof. reflexivity. Qed.

Lemma for_cons x l body s st :
  for_ (x :: l) body s st =
  match body x s st with
  | Ok (s', st') => for_ l body s' st'
  | Raise e => Raise e
  end.
Proof. reflexivity. Qed.

Lemma for_app l1 l2 body s st :
  for_ (l1 ++ l2) body s st =
  match for_ l1 body s st with
  | Ok (s', st') => for_ l2 body s' st'
  | Raise e => Raise e
  end.
Proof.
  revert s st. induction l1 as [|x l1 IH]; intros s st; [done|].
  rewrite <- app_comm_cons, !for_cons.
  destruct (body x s st) as [[s' st']|e]; [apply IH|done].
Qed.

(** A loop whose body changes nothing until it raises [e]. *)
Lemma for_first_raise (P : A -> bool) e l body s st :
  (forall x s st, x ∈ l ->
     body x s st = if P x then Raise e else Ok (s, st)) ->
  for_ l body s st = if existsb P l then Raise e else Ok (s, st).
Proof.
  induction l as [|x l IH]; intros Hb; [done|].
  rewrite for_cons, Hb by left. simpl.
  destruct (P x); [done|]. apply IH. intros; apply Hb; by right.
Qed.

(** A loop whose bodies all return without effect. *)
Lemma for_skip l body s st :
  (forall x s st, x ∈ l -> body x s st = Ok (s, st)) ->
  for_ l body s st = Ok (s, st).
Proof.
  intros Hb. rewrite (for_first_raise (fun _ => false) ValueError).
  - clear Hb. by induction l.
  - intros. by apply Hb.
Qed.

(** An exception of the loop is an exception of one of its bodies. *)
Lemma for_raise l body s st e :
  for_ l body s st = Raise e ->
  exists x s' st', x ∈ l /\ body x s' st' = Raise e.
Proof.
  revert s st. induction l as [|x l IH]; intros s st; [done|].
  rewrite for_cons. destruct (body x s st) as [[s' st']|e'] eqn:Hx.
  - intros H. destruct (IH _ _ H) as (y & s1 & st1 & ? & ?).
    exists y, s1, st1. split; [by right|done].
  - intros [= ->]. exists x, s, st. split; [left|done].
Qed.

(** Invariant rule: [I done s st] relates the processed prefix to the
    loop variables and the state. *)
Lemma for_inv (I : list A -> S -> St -> Prop) l body s st s' st' :
  I [] s st ->
  (forall done x s1 st1 s2 st2,
     x ∈ l -> I done s1 st1 -> body x s1 st1 = Ok (s2, st2) ->
     I (done ++ [x]) s2 st2) ->
  for_ l body s st = Ok (s', st') ->
  I l s' st'.
Proof.
  intros H0 Hstep.
  cut (forall done, I done s st ->
         for_ l body s st = Ok (s', st') -> I (done ++ l) s' st').
  { intros Hc. apply (Hc []); auto. }
  clear H0. revert s st Hstep.
  induction l as [|x l IH]; intros s st Hstep done HI.
  - rewrite for_nil, app_nil_r. by intros [= <- <-].
  - rewrite for_cons. destruct (body x s st) as [[s1 st1]|] eqn:Hx; [|done].
    intros Hl. rewrite (assoc_L (++) done [x] l : done ++ x :: l = _).
    apply (IH s1 st1); [|by eapply Hstep; eauto; left|done].
    intros; eapply Hstep; eauto. by right.
Qed.

(** The total version: every body returns under the invariant, so the
    loop returns. *)
Lemma for_inv_total (I : list A -> S -> St -> Prop) l body s st :
  I [] s st ->
  (forall done x s1 st1,
     x ∈ l -> I done s1 st1 ->
     exists s2 st2, body x s1 st1 = Ok (s2, st2) /\ I (done ++ [x]) s2 st2) ->
  exists s' st', for_ l body s st = Ok (s', st') /\ I l s' st'.
Proof.
  intros H0 Hstep.
  cut (forall done, I done s st ->
         exists s' st', for_ l body s st = Ok (s', st') /\ I (done ++ l) s' st').
  { intros Hc. apply (Hc []); auto. }
  clear H0. revert s st Hstep.
  induction l as [|x l IH]; intros s st Hstep done HI.
  - exists s, st. by rewrite app_nil_r.
  - destruct (Hstep done x s st) as (s1 & st1 & Hx & HI1); [left|done|].
    rewrite for_cons, Hx.
    rewrite (assoc_L (++) done [x] l : done ++ x :: l = _).
    apply IH; [|done]. intros; apply Hstep; [by right|done].
Qed.
End for_loops.

Section for_pure.
Context {St A S : Type}.

(** A loop whose body raises [e] on the elements that satisfy [P], and
    otherwise updates the loop variables and the state independently of each
    other, raises at the first such element or is a pair of left folds. *)
Lemma for_pure_raise (P : A -> bool) e (f : S -> A -> S) (g : St -> A -> St)
    (l : list A) (body : A -> S -> M St S) s st :
  (forall x s st, x ∈ l ->
     body x s st = if P x then Raise e else Ok (f s x, g st x)) ->
  for_ l body s st =
  if existsb P l then Raise e else Ok (foldl f s l, foldl g st l).
Proof.
  revert s st. induction l as [|x l IH]; intros s st Hb; [done|].
  rewrite for_cons, Hb by left. simpl.
  destruct (P x); [done|]. simpl. apply IH.
  intros; apply Hb; by right.
Qed.
End for_pure.

(** ** Dicts *)

Section dicts.
Context {V : Type}.
Implicit Types (d : dict V) (k : string) (v : V).

Lemma dict_get_Some_elem k v d : dict_get k d = Some v -> (k, v) ∈ d.
Proof.
  induction d as [|[k' v'] d IH]; simpl; [done|].
  destruct (String.eqb_spec k k') as [-> |].
  - intros [= ->]. left.
  - intros. right. auto.
Qed.

Lemma dict_get_None k d : dict_get k d = None <-> k ∉ keys d.
Proof.
  unfold keys. induction d as [|[k' v'] d IH]; csimpl.
  - split; [intros _; apply not_elem_of_nil|done].
  - rewrite not_elem_of_cons.
    destruct (String.eqb_spec k k') as [-> |Hne]; [|tauto].
    split; [done|]. by intros [[] _].
Qed.

Lemma dict_get_is_Some k d : is_Some (dict_get k d) <-> k ∈ keys d.
Proof.
  rewrite <- not_eq_None_Some, dict_get_None.
  destruct (decide (k ∈ keys d)); naive_solver.
Qed.

(** With unique keys, every entry is the one [dict_get] finds. *)
Lemma dict_get_NoDup k v d :
  NoDup (keys d) -> (k, v) ∈ d -> dict_get k d = Some v.
Proof.
  unfold keys. induction d as [|[k' v'] d IH]; csimpl.
  - by intros _ ?%elem_of_nil.
  - rewrite NoDup_cons. intros [Hk Hd] [[= -> ->]|Hin]%elem_of_cons.
    + by rewrite String.eqb_refl.
    + destruct (String.eqb_spec k k') as [-> |]; [|auto].
      destruct Hk. apply list_elem_of_fmap. by exists (k', v).
Qed.

Lemma dict_get_set k k' v d :
  dict_get k (dict_set k' v d) =
  if String.eqb k k' then Some v else dict_get k d.
Proof.
  induction d as [|[k1 v1] d IH]; simpl; [done|].
  destruct (String.eqb_spec k' k1) as [-> |Hne]; simpl.
  - by destruct (String.eqb_spec k k1).
  - rewrite IH. destruct (String.eqb_spec k k1) as [-> |]; [|done].
    by destruct (String.eqb_spec k1 k') as [-> |].
Qed.

Lemma keys_dict_set k v d :
  keys (dict_set k v d) =
  if bool_decide (k ∈ keys d) then keys d else keys d ++ [k].
Proof.
  unfold keys. induction d as [|[k1 v1] d IH]; csimpl; [done|].
  destruct (String.eqb_spec k k1) as [-> |Hne]; csimpl.
  - rewrite bool_decide_eq_true_2; [done|left].
  - rewrite IH. destruct (decide (k ∈ d.*1)).
    + rewrite !bool_decide_eq_true_2; [done|by right|done].
    + rewrite !bool_decide_eq_false_2; [done| |done].
      rewrite not_elem_of_cons. done.
Qed.

Lemma getitem_eq {St} d k (st : St) :
  getitem d k st = match dict_get k d with
                   | Some v => Ok (v, st)
                   | None => Raise (KeyError k)
                   end.
Proof. unfold getitem. by destruct (dict_get k d). Qed.
End dicts.

(** ** [create_targets] as a pure function of the track's sources *)

Lemma float_eq {St} x (st : St) :
  float_ x st = match py_float x with
                | Some g => Ok (g, st)
                | None => Raise OverflowError
                end.
Proof. unfold float_. by destruct (py_float x). Qed.

Lemma add_target_source_eq track it ts h :
  add_target_source track it ts h =
  if overflows (keys (MultiTrack.sources track)) it then Raise OverflowError
  else Ok (match dict_get it.1 (MultiTrack.sources track) with
           | Some a => ts ++ [a]
           | None => ts
           end, gain_step (MultiTrack.sources track) h it).
Proof.
  destruct it as [source gain].
  unfold add_target_source, gain_step, overflows. simpl.
  case_bool_decide as Hin; simpl.
  - apply dict_get_is_Some in Hin as [a Ha].
    unfold bind. rewrite float_eq.
    destruct (py_float gain) as [g|]; [|by rewrite bool_decide_eq_true_2].
    rewrite bool_decide_eq_false_2 by done.
    unfold setattr_gain, ret. rewrite !getitem_eq, Ha.
    by rewrite getitem_eq, Ha.
  - apply dict_get_None in Hin. by rewrite Hin.
Qed.

Lemma target_sources_eq track target_srcs ts h :
  for_ target_srcs (add_target_source track) ts h =
  if existsb (overflows (keys (MultiTrack.sources track))) target_srcs
  then Raise OverflowError
  else Ok (ts ++ resolved (MultiTrack.sources track) target_srcs,
           foldl (gain_step (MultiTrack.sources track)) h target_srcs).
Proof.
  erewrite for_pure_raise by (intros; apply add_target_source_eq).
  destruct (existsb _ _); [done|].
  do 2 f_equal. revert ts. unfold resolved.
  induction target_srcs as [|it l IH]; intros ts; simpl.
  - by rewrite app_nil_r.
  - rewrite IH. destruct (dict_get _ _); [|done].
    by rewrite <- app_assoc.
Qed.

Lemma add_target_eq track it targets h :
  add_target track it targets h =
  if existsb (overflows (keys (MultiTrack.sources track))) it.2
  then Raise OverflowError
  else Ok (target_step (MultiTrack.sources track) targets it,
           foldl (gain_step (MultiTrack.sources track)) h it.2).
Proof.
  destruct it as [name target_srcs]. unfold add_target, bind, target_step.
  rewrite target_sources_eq. simpl.
  destruct (existsb _ _); [done|]. simpl.
  by destruct (resolved _ _).
Qed.

Lemma create_targets_eq self track h :
  create_targets self track h =
  if gains_overflow (keys (MultiTrack.sources track)) (Setup.targets (DB.setup self))
  then Raise OverflowError
  else
    Ok (foldl (target_step (MultiTrack.sources track)) []
              (Setup.targets (DB.setup self)),
        foldl (fun h it => foldl (gain_step (MultiTrack.sources track)) h it.2)
              h (Setup.targets (DB.setup self))).
Proof.
  unfold create_targets, gains_overflow.
  by erewrite for_pure_raise by (intros; apply add_target_eq).
Qed.


(** No pair on which line 233 raises: the gain of every declared pair whose
    source the track holds converts. *)
Lemma gains_overflow_false names (targets : dict (dict number)) :
  gains_overflow names targets = false <-> gains_convert names targets.
Proof.
  unfold gains_overflow, gains_convert. rewrite <- not_true_iff_false, existsb_exists.
  split.
  - intros Hno name spec src g Hspec Hg Hsrc.
    destruct (py_float g) as [x|] eqn:Hx; [eauto|]. destruct Hno.
    exists (name, spec). split; [by apply list_elem_of_In|].
    apply existsb_exists. exists (src, g).
    split; [by apply list_elem_of_In|]. unfold overflows. simpl.
    by rewrite !bool_decide_eq_true_2.
  - intros Hall ([name spec] & Hspec%list_elem_of_In & Hex).
    apply existsb_exists in Hex as ([src g] & Hg%list_elem_of_In & Hov).
    unfold overflows in Hov. simpl in Hov.
    apply andb_true_iff in Hov as [Hsrc%bool_decide_eq_true Hnone%bool_decide_eq_true].
    destruct (Hall name spec src g Hspec Hg Hsrc) as [x Hx]. congruence.
Qed.

(** ** Which exceptions the traversal can raise *)

Lemma getattr_sample_rate_eq {St} self (st : St) :
  getattr_sample_rate self st =
  match DB.sample_rate self with
  | Some v => Ok (v, st)
  | None => Raise (AttributeError "sample_rate")
  end.
Proof. unfold getattr_sample_rate. by destruct (DB.sample_rate self). Qed.

Lemma add_source_raise self fs tf fnum it sources h e :
  add_source self fs tf fnum it sources h = Raise e -> lookup_error e.
Proof.
  destruct it as [src file]. unfold add_source, bind.
  destruct (os_path_exists _ _); [|done].
  rewrite getitem_eq. destruct (dict_get _ _); [|intros [= <-]; left; eauto].
  rewrite getattr_sample_rate_eq.
  destruct (DB.sample_rate self); [done|intros [= <-]; by right].
Qed.

Lemma add_track_raise self fs subset name tf fnum tracks h e :
  add_track self fs subset name tf fnum tracks h = Raise e ->
  traversal_error e.
Proof.
  unfold add_track, bind.
  rewrite getitem_eq.
  destruct (dict_get _ _); [|intros [= <-]; left; left; eauto].
  rewrite getattr_sample_rate_eq.
  destruct (DB.sample_rate self); [|intros [= <-]; left; by right].
  destruct (for_ _ _ _ _) as [[sources h1]|e1] eqn:Hs.
  - rewrite create_targets_eq.
    destruct (gains_overflow _ _); [|done]. intros [= <-]. by right.
  - intros [= <-]. apply for_raise in Hs as (it & s1 & h1 & _ & Hs).
    left. by eapply add_source_raise.
Qed.

Lemma add_track_name_raise self fs subset sf split name tracks h e :
  add_track_name self fs subset sf split name tracks h = Raise e ->
  traversal_error e.
Proof.
  unfold add_track_name. destruct (split_skips _ _ _ _); [done|].
  intros ([[? lvl2] ?] & s1 & h1 & _ & H)%for_raise.
  apply for_raise in H as (fnum & s2 & h2 & _ & H).
  by eapply add_track_raise.
Qed.

Lemma add_subset_raise self fs split subset tracks h e :
  add_subset self fs split subset tracks h = Raise e -> traversal_error e.
Proof.
  unfold add_subset.
  intros ([[? folders] ?] & s1 & h1 & _ & H)%for_raise.
  destruct (DB.is_wav self); [|done].
  apply for_raise in H as (name & s2 & h2 & _ & H).
  by eapply add_track_name_raise.
Qed.

Lemma load_mus_tracks_eq self fs subsets split h :
  load_mus_tracks self fs subsets split h =
  if decide (split_misused subsets split)
  then Raise (RuntimeError "Subset has to set to `train` when split is used")
  else for_ (normalize_subsets subsets) (add_subset self fs split) [] h.
Proof.
  unfold load_mus_tracks, split_misused.
  destruct (decide _) as [[H1 H2]|Hn].
  - by rewrite !bool_decide_eq_true_2.
  - apply not_and_l in Hn.
    destruct Hn as [Hn|Hn].
    + by rewrite (bool_decide_eq_false_2 _ Hn).
    + rewrite (bool_decide_eq_false_2 _ Hn). by rewrite andb_false_r.
Qed.

(** C3: indexing raises the configuration error exactly when [split] is given
    while the normalized subsets (a single string as a one-element list,
    [None] as [["train"; "test"]]) are not exactly [["train"]]; the outcome
    is the same for every directory tree and store, the check coming before
    any traversal. *)
Theorem load_mus_tracks_configuration_error self fs subsets split h :
  (exists msg,
     load_mus_tracks self fs subsets split h = Raise (RuntimeError msg)) <->
  (split ≠ None /\ normalize_subsets subsets ≠ ["train"]).
Proof.
  rewrite load_mus_tracks_eq.
  destruct (decide _) as [[H1 H2]|Hn].
  - split; [done|]. intros _. eauto.
  - split; [|intros [??]; destruct Hn; by split].
    intros [msg (subset & s1 & h1 & _ & H)%for_raise].
    apply add_subset_raise in H as [[[k [=]]|[=]]|[=]].
Qed.

(** ** The traversal as one loop over the tracks it reaches *)

Section for_nested.
Context {St A B S : Type}.

Lemma for_flat_map (f : A -> list B) (l : list A) (body : B -> S -> M St S)
    s (st : St) :
  for_ (flat_map f l) body s st = for_ l (fun x => for_ (f x) body) s st.
Proof.
  revert s st. induction l as [|x l IH]; intros s st; [done|].
  simpl flat_map. rewrite for_app, for_cons.
  destruct (for_ (f x) body s st) as [[s' st']|]; [apply IH|done].
Qed.

Lemma for_fmap (f : A -> B) (l : list A) (body : B -> S -> M St S)
    s (st : St) :
  for_ (f <$> l) body s st = for_ l (fun x => body (f x)) s st.
Proof.
  revert s st. induction l as [|x l IH]; intros s st; [done|].
  rewrite fmap_cons, !for_cons.
  destruct (body (f x) s st) as [[s' st']|]; [apply IH|done].
Qed.

Lemma for_ext (l : list A) (body1 body2 : A -> S -> M St S) s (st : St) :
  (forall x s st, x ∈ l -> body1 x s st = body2 x s st) ->
  for_ l body1 s st = for_ l body2 s st.
Proof.
  revert s st. induction l as [|x l IH]; intros s st Hb; [done|].
  rewrite !for_cons, Hb by left.
  destruct (body2 x s st) as [[s' st']|]; [|done].
  apply IH. intros; apply Hb; by right.
Qed.
End for_nested.

Lemma add_track_name_flat self fs subset split track_name tracks h :
  add_track_name self fs subset (op_join (DB.data_path self) [subset])
                 split track_name tracks h =
  for_ (name_keys self fs split subset track_name)
       (add_track_key self fs) tracks h.
Proof.
  unfold add_track_name, name_keys.
  destruct (split_skips _ _ _ _); [done|].
  rewrite for_fmap. unfold variants. rewrite for_flat_map.
  apply for_ext. by intros [[? lvl2] ?] ???.
Qed.

Lemma add_subset_flat self fs split subset tracks h :
  add_subset self fs split subset tracks h =
  for_ (subset_keys self fs split subset) (add_track_key self fs) tracks h.
Proof.
  unfold add_subset, subset_keys. destruct (DB.is_wav self).
  - rewrite for_flat_map. unfold candidates. rewrite for_flat_map.
    apply for_ext. intros [[? folders] ?] s st _.
    apply for_ext. intros name s' st' _. apply add_track_name_flat.
  - apply for_skip. by intros [[??]?].
Qed.

Lemma load_mus_tracks_flat self fs subsets split h :
  ~ split_misused subsets split ->
  load_mus_tracks self fs subsets split h =
  for_ (track_keys self fs subsets split) (add_track_key self fs) [] h.
Proof.
  intros Hok. rewrite load_mus_tracks_eq. destruct (decide _); [done|].
  unfold track_keys. rewrite for_flat_map.
  apply for_ext. intros; apply add_subset_flat.
Qed.

(** C2: the split filter of lines 172-176, for a track name met while
    indexing (the subset/split check has passed and [subset] is one of the
    requested subsets): outside "train" or without a split the name is kept;
    with split "train" it is kept iff it is not a validation track; with
    split "valid" iff it is one.  A name that is not kept is skipped as a
    whole before any object is built: catalog and store stay as they were,
    whatever lies below its folder. *)
Theorem split_filter_per_track_name self fs subsets split subset track_name
    tracks h :
  ~ split_misused subsets split ->
  subset ∈ normalize_subsets subsets ->
  let V := Setup.validation_tracks (DB.setup self) in
  let kept := negb (split_skips self subset split track_name) in
  ((subset ≠ "train" \/ split = None) -> kept = true) /\
  (split = Some "train" -> (kept = true <-> track_name ∉ V)) /\
  (split = Some "valid" -> (kept = true <-> track_name ∈ V)) /\
  (kept = false ->
     add_track_name self fs subset (op_join (DB.data_path self) [subset])
                    split track_name tracks h = Ok (tracks, h)) /\
  (kept = true ->
     add_track_name self fs subset (op_join (DB.data_path self) [subset])
                    split track_name tracks h =
     for_ ((fun v => (subset, track_name, v))
             <$> variants fs (track_folder_of self subset track_name))
          (add_track_key self fs) tracks h).
Proof.
  intros Hok Hin V kept.
  assert (Htrain : split ≠ None -> subset = "train").
  { intros Hs. destruct (decide (normalize_subsets subsets = ["train"])) as [E|E].
    - rewrite E in Hin. by apply list_elem_of_singleton in Hin.
    - destruct Hok. by split. }
  subst kept V.
  split; [|split; [|split; [|split]]].
  - unfold split_skips. intros [Hne| ->].
    + by destruct (String.eqb_spec subset "train").
    + by destruct (String.eqb subset "train").
  - unfold split_skips. intros ->. rewrite (Htrain ltac:(done)). simpl.
    case_bool_decide; simpl; split; done.
  - unfold split_skips. intros ->. rewrite (Htrain ltac:(done)). simpl.
    case_bool_decide; simpl; split; done.
  - intros Hk. unfold add_track_name.
    by destruct (split_skips _ _ _ _).
  - intros Hk. rewrite add_track_name_flat. unfold name_keys.
    by destruct (split_skips _ _ _ _).
Qed.

Lemma split_filter_per_track_name_witness :
  negb (split_skips ex_db "train" (Some "valid") "Song A") = false /\
  add_track_name ex_db ex_fs "train" (op_join (DB.data_path ex_db) ["train"])
                 (Some "valid") "Song A" [] [] = Ok ([], []).
Proof.
  assert (H1 : ~ split_misused (Some (Str "train")) (Some "valid")).
  { intros [H _]. by apply H. }
  assert (H2 : "train" ∈ normalize_subsets (Some (Str "train"))) by left.
  destruct (split_filter_per_track_name ex_db ex_fs (Some (Str "train"))
              (Some "valid") "train" "Song A" [] [] H1 H2)
    as (_ & _ & _ & Hskip & _).
  split; [reflexivity|]. apply Hskip. reflexivity.
Defined.

(** ** The container layout *)

(** C1: the container layout is not indexed.  With [is_wav = False], the
    constructor's default and the layout that the class docstring (lines
    28-30) documents for it, the test subset of the example tree, which
    holds the folder "Song C" with its mixture file, is indexed as empty,
    where the layout asks for one track per sub-directory: the only
    traversal branch is the one that line 169 guards with [self.is_wav]. *)
Lemma container_layout_counterexample :
  load_mus_tracks ex_db_stems ex_fs (Some (Str "test")) None [] = Ok ([], []) /\
  immediate_subdirs ex_fs ["data"; "test"; "drums"] = ["Song C"] /\
  ~ container_layout ex_db_stems ex_fs "test" [].
Proof.
  split; [reflexivity|]. split; [reflexivity|].
  intros H. destruct (H eq_refl) as (tracks & h' & Hl & HF).
  vm_compute in Hl. injection Hl as <- <-.
  vm_compute in HF. inversion HF.
Qed.

Lemma track_keys_not_wav self fs subsets split :
  DB.is_wav self = false -> track_keys self fs subsets split = [].
Proof.
  intros Hw. unfold track_keys, subset_keys. rewrite Hw.
  by induction (normalize_subsets subsets).
Qed.

(** The same on every tree: without [is_wav] the traversal has no branch to
    take, and a call that passes the subset/split check returns the empty
    catalog and leaves the store as it was. *)
Lemma load_mus_tracks_not_wav self fs subsets split h :
  DB.is_wav self = false ->
  ~ split_misused subsets split ->
  load_mus_tracks self fs subsets split h = Ok ([], h).
Proof.
  intros Hw Hok. rewrite load_mus_tracks_flat by done.
  by rewrite track_keys_not_wav.
Qed.

(** ** The [sample_rate] attribute *)

Lemma add_track_unset self fs subset name tf fnum tracks h :
  DB.sample_rate self = None ->
  is_Some (dict_get "mixture" (Setup.stem_ids (DB.setup self))) ->
  add_track self fs subset name tf fnum tracks h =
  Raise (AttributeError "sample_rate").
Proof.
  intros Hsr [i Hi]. unfold add_track, bind.
  by rewrite getitem_eq, Hi, getattr_sample_rate_eq, Hsr.
Qed.

Lemma add_track_unset_raises self fs subset name tf fnum tracks h :
  DB.sample_rate self = None ->
  exists e, add_track self fs subset name tf fnum tracks h = Raise e.
Proof.
  intros Hsr. unfold add_track, bind.
  rewrite getitem_eq. destruct (dict_get _ _); [|eauto].
  rewrite getattr_sample_rate_eq, Hsr. eauto.
Qed.

(** Every track that [add_track] appends carries the object's sample rate. *)
Lemma add_track_sample_rate self fs subset name tf fnum tracks h tracks' h' v :
  DB.sample_rate self = Some v ->
  add_track self fs subset name tf fnum tracks h = Ok (tracks', h') ->
  exists t, tracks' = tracks ++ [t] /\ MultiTrack.sample_rate t = v.
Proof.
  intros Hsr. unfold add_track, bind.
  rewrite getitem_eq. destruct (dict_get _ _); [|done].
  rewrite getattr_sample_rate_eq, Hsr.
  destruct (for_ _ _ _ _) as [[sources h1]|]; [|done].
  rewrite create_targets_eq.
  destruct (gains_overflow _ _) eqn:Hov; [done|]. intros [= <- <-]. eauto.
Qed.

(** C10: when the [sample_rate] argument equals the configured value
    (line 98 compares with [!=]), the attribute is never assigned: a
    construction that returns has built no track at all, and one that reaches
    a first track stops there with an exception, the [AttributeError] of
    line 193 when the configuration gives the mixture its stem id.  When the
    argument differs, the attribute holds it and every track carries it. *)
Theorem DB_init_sample_rate root setup is_wav subsets split sample_rate
    data_path instrument fs h :
  let self := DB_new root setup is_wav sample_rate data_path instrument in
  let run := DB_init (Some root) setup is_wav subsets split sample_rate
                     data_path instrument fs h in
  (py_eq sample_rate (Setup.sample_rate setup) = true ->
     DB.sample_rate self = None /\
     (forall db h', run = Ok (db, h') ->
        DB.sample_rate db = None /\ DB.tracks db = [] /\
        track_keys self fs subsets split = []) /\
     (~ split_misused subsets split ->
      track_keys self fs subsets split ≠ [] ->
      (exists e, run = Raise e) /\
      (is_Some (dict_get "mixture" (Setup.stem_ids setup)) ->
       run = Raise (AttributeError "sample_rate")))) /\
  (py_eq sample_rate (Setup.sample_rate setup) = false ->
     DB.sample_rate self = Some sample_rate /\
     (forall db h', run = Ok (db, h') ->
        DB.sample_rate db = Some sample_rate /\
        forall t, t ∈ DB.tracks db -> MultiTrack.sample_rate t = sample_rate)).
Proof.
  intros self run. subst run. unfold DB_init, bind. fold self.
  split; intros Heq.
  - assert (Hsr : DB.sample_rate self = None) by (simpl; by rewrite Heq).
    split; [done|]. split.
    + intros db h'.
      destruct (decide (split_misused subsets split)) as [Hbad|Hok].
      { rewrite load_mus_tracks_eq. by rewrite decide_True. }
      rewrite load_mus_tracks_flat by done.
      destruct (track_keys self fs subsets split) as [|k ks].
      * by intros [= <- <-].
      * rewrite for_cons. unfold add_track_key.
        by destruct (add_track_unset_raises self fs k.1.1 k.1.2
                       (track_folder_of self k.1.1 k.1.2) k.2 [] h Hsr)
          as [e ->].
    + intros Hok Hkeys. rewrite load_mus_tracks_flat by done.
      destruct (track_keys self fs subsets split) as [|k ks]; [done|].
      rewrite for_cons. unfold add_track_key. split.
      * destruct (add_track_unset_raises self fs k.1.1 k.1.2
                    (track_folder_of self k.1.1 k.1.2) k.2 [] h Hsr)
          as [e ->]. eauto.
      * intros Hmix. by rewrite add_track_unset.
  - assert (Hsr : DB.sample_rate self = Some sample_rate)
      by (simpl; by rewrite Heq).
    split; [done|]. intros db h'.
    destruct (load_mus_tracks self fs subsets split h)
      as [[tracks h1]|] eqn:Hl; [|done].
    intros [= <- <-]. split; [done|]. simpl.
    rewrite load_mus_tracks_eq in Hl. destruct (decide _); [done|].
    revert Hl. apply (for_inv (fun _ tracks _ =>
      forall t, t ∈ tracks -> MultiTrack.sample_rate t = sample_rate)).
    + by intros t ?%elem_of_nil.
    + intros _ subset s1 st1 s2 st2 _ HI. rewrite add_subset_flat.
      apply (for_inv (fun _ tracks _ =>
        forall t, t ∈ tracks -> MultiTrack.sample_rate t = sample_rate));
        [done|].
      intros _ k s3 st3 s4 st4 _ HI' Hk.
      eapply add_track_sample_rate in Hk as (t & -> & Ht); [|done].
      intros t' [?| ->%list_elem_of_singleton]%elem_of_app; auto.
Qed.

Lemma DB_init_sample_rate_witness :
  DB_init (Some ".") ex_setup true None None (Some (NFloat 44100))
          ["data"] "drums" ex_fs [] = Raise (AttributeError "sample_rate") /\
  (exists db h', DB_init (Some ".") ex_setup true None None (Some (NInt 48000))
                         ["data"] "drums" ex_fs [] = Ok (db, h') /\
                 DB.sample_rate db = Some (Some (NInt 48000))).
Proof.
  split.
  - destruct (DB_init_sample_rate "." ex_setup true None None
                (Some (NFloat 44100)) ["data"] "drums" ex_fs [])
      as [H _].
    destruct (H eq_refl) as (_ & _ & H').
    apply H'.
    + intros [_ Hs]. by apply Hs.
    + vm_compute. discriminate.
    + vm_compute. eauto.
  - eexists _, _. split; [vm_compute; reflexivity|].
    reflexivity.
Defined.

(** ** Index lookup *)

Lemma list_index_None x l : list_index x l = None <-> x ∉ l.
Proof.
  induction l as [|y l IH]; simpl.
  - split; [intros _; apply not_elem_of_nil|done].
  - rewrite not_elem_of_cons. destruct (String.eqb_spec x y) as [-> |Hne].
    + split; [done|]. by intros [[] _].
    + rewrite fmap_None. tauto.
Qed.

(** [list_index] finds the first position that holds [x]. *)
Lemma list_index_Some x l i :
  list_index x l = Some i ->
  l !! i = Some x /\ forall j, (j < i)%nat -> l !! j ≠ Some x.
Proof.
  revert i. induction l as [|y l IH]; intros i; simpl; [done|].
  destruct (String.eqb_spec x y) as [-> |Hne].
  - intros [= <-]. split; [done|]. intros j Hj. inversion Hj.
  - destruct (list_index x l) as [i'|]; [|done]. intros [= <-].
    destruct (IH i' eq_refl) as [H1 H2]. split; [done|].
    intros [|j] Hj; simpl.
    + by intros [= ->].
    + apply H2. by apply Nat.succ_lt_mono.
Qed.

Lemma index_step_eq {St} catalog name acc (st : St) :
  index_step catalog name acc st =
  match list_index name catalog with
  | Some i => Ok (acc ++ [i], st)
  | None => Raise ValueError
  end.
Proof.
  unfold index_step, bind, py_index. by destruct (list_index name catalog).
Qed.

Lemma indices_loop {St} (catalog requested : list string) acc (st : St) :
  (forall name, name ∈ requested -> name ∈ catalog) ->
  exists idxs,
    for_ requested (index_step catalog) acc st = Ok (acc ++ idxs, st) /\
    Forall2 (fun name i =>
               catalog !! i = Some name /\
               forall j, (j < i)%nat -> catalog !! j ≠ Some name)
            requested idxs.
Proof.
  revert acc. induction requested as [|x l IH]; intros acc Hall.
  - exists []. by rewrite app_nil_r.
  - rewrite for_cons, index_step_eq.
    destruct (list_index x catalog) as [i|] eqn:Hi.
    + destruct (IH (acc ++ [i])) as (idxs & -> & HF).
      { intros; apply Hall; by right. }
      exists (i :: idxs). rewrite <- app_assoc. split; [done|].
      constructor; [by apply list_index_Some|done].
    + apply list_index_None in Hi. destruct Hi. apply Hall. left.
Qed.

Lemma indices_loop_absent {St} (catalog requested : list string) acc (st : St)
    name :
  name ∈ requested -> name ∉ catalog ->
  for_ requested (index_step catalog) acc st = Raise ValueError.
Proof.
  revert acc. induction requested as [|x l IH]; intros acc Hin Hno.
  - by apply elem_of_nil in Hin.
  - rewrite for_cons, index_step_eq.
    destruct (list_index x catalog) as [i|] eqn:Hi; [|done].
    apply IH; [|done]. apply elem_of_cons in Hin as [-> |]; [|done].
    assert (list_index x catalog ≠ None) as Hx by by rewrite Hi.
    rewrite list_index_None in Hx. by destruct Hx.
Qed.

(** C8: for a request (a single name counts as a one-element list) whose
    names all occur in the catalog, the lookup returns, in request order,
    for each name the position of the first catalog entry bearing it; a
    request that holds a name absent from the catalog raises [ValueError]
    and returns nothing. *)
Theorem get_track_indices_by_names_spec {St} self names (st : St) :
  let requested := match names with Str s => [s] | List l => l end in
  let catalog := MultiTrack.name <$> DB.tracks self in
  ((forall name, name ∈ requested -> name ∈ catalog) ->
   exists idxs,
     get_track_indices_by_names self names st = Ok (idxs, st) /\
     Forall2 (fun name i =>
                catalog !! i = Some name /\
                forall j, (j < i)%nat -> catalog !! j ≠ Some name)
             requested idxs) /\
  ((exists name, name ∈ requested /\ name ∉ catalog) ->
   get_track_indices_by_names self names st = Raise ValueError).
Proof.
  intros requested catalog. split.
  - intros Hall.
    destruct (indices_loop catalog requested [] st Hall) as (idxs & H & HF).
    by exists idxs.
  - intros (name & Hin & Hno).
    by apply (indices_loop_absent catalog requested [] st name).
Qed.

Lemma get_track_indices_by_names_witness :
  let db := DB.set_tracks
              [new_MultiTrack "Song A" [] "train" true 0 None;
               new_MultiTrack "Song A" [] "train" true 0 None;
               new_MultiTrack "Song B" [] "train" true 0 None] ex_db in
  get_track_indices_by_names db (List ["Song B"; "Song A"]) tt
    = Ok ([2; 0]%nat, tt) /\
  get_track_indices_by_names db (List ["Song A"; "Song Z"]) tt
    = Raise ValueError.
Proof.
  intros db. split.
  - destruct (get_track_indices_by_names_spec db (List ["Song B"; "Song A"]) tt)
      as [H _].
    destruct H as (idxs & -> & HF).
    + intros name Hin. simpl.
      repeat (apply elem_of_cons in Hin as [-> |Hin];
              [repeat first [by left|right]|]).
      by apply elem_of_nil in Hin.
    + inversion HF as [|? i ? l [Hi _] HF']; subst.
      inversion HF' as [|? i' ? l' [Hi' Hfirst'] HF'']; subst.
      inversion HF''; subst.
      destruct i' as [|[|[|i']]]; try discriminate.
      * destruct i as [|[|[|i]]]; try discriminate. reflexivity.
      * destruct (Hfirst' 0%nat); [apply Nat.lt_0_succ|reflexivity].
  - destruct (get_track_indices_by_names_spec db (List ["Song A"; "Song Z"]) tt)
      as [_ H].
    apply H. exists "Song Z". split; [right; left|].
    simpl. rewrite !not_elem_of_cons.
    repeat split; try discriminate. apply not_elem_of_nil.
Defined.

(** ** What one track holds *)

Lemma elem_of_flat_map {A B} (f : A -> list B) (l : list A) (y : B) :
  y ∈ flat_map f l <-> exists x, x ∈ l /\ y ∈ f x.
Proof.
  induction l as [|x l IH]; simpl.
  - split; [by intros ?%elem_of_nil|by intros (? & ?%elem_of_nil & _)].
  - rewrite elem_of_app, IH. split.
    + intros [Hy|(x' & Hx' & Hy)].
      * exists x. split; [left|done].
      * exists x'. split; [by right|done].
    + intros (x' & [-> |Hx']%elem_of_cons & Hy); [by left|].
      right. by exists x'.
Qed.

Lemma add_source_ok self fs tf fnum src file sources h sources' h' :
  add_source self fs tf fnum (src, file) sources h = Ok (sources', h') ->
  (os_path_exists fs (op_join tf [fnum; file]) = true /\
   sources' = dict_set src (length h) sources /\
   (length h' = S (length h)) /\ h' !! length h ≠ None /\
   (forall a, (a < length h)%nat -> h' !! a = h !! a)) \/
  (os_path_exists fs (op_join tf [fnum; file]) = false /\
   sources' = sources /\ h' = h).
Proof.
  unfold add_source, bind.
  destruct (os_path_exists _ _); [|intros [= <- <-]; by right].
  rewrite getitem_eq. destruct (dict_get _ _) as [sid|]; [|done].
  rewrite getattr_sample_rate_eq. destruct (DB.sample_rate self); [|done].
  unfold new_Source, ret. intros [= <- <-]. left.
  split; [done|]. split; [done|]. split; [|split].
  - rewrite length_app. simpl. apply Nat.add_1_r.
  - rewrite lookup_app_r, Nat.sub_diag by done. done.
  - intros a Ha. by rewrite lookup_app_l.
Qed.

Lemma sources_loop_ok self fs tf fnum h sources h' :
  for_ (Setup.sources (DB.setup self)) (add_source self fs tf fnum) [] h
    = Ok (sources, h') ->
  (forall src, src ∈ keys sources <->
               present fs tf fnum (Setup.sources (DB.setup self)) src) /\
  distinct_refs sources /\ allocated sources h' /\
  (length h <= length h')%nat /\
  (forall a, (a < length h)%nat -> h' !! a = h !! a).
Proof.
  apply (for_inv (fun done sources h' =>
    (forall src, src ∈ keys sources <-> present fs tf fnum done src) /\
    distinct_refs sources /\ allocated sources h' /\
    (length h <= length h')%nat /\
    (forall a, (a < length h)%nat -> h' !! a = h !! a))).
  - split; [|split; [|split; [|split]]]; try done.
    intros src. split; [by intros ?%elem_of_nil|].
    by intros (? & ?%elem_of_nil & _).
  - intros done [src file] s1 h1 s2 h2 _ (Hk & Hd & Ha & Hlen & Hold) Hstep.
    unfold present in *.
    apply add_source_ok in Hstep
      as [(Hex & -> & Hlen' & Hnew & Hold')|(Hex & -> & ->)].
    + split; [|split; [|split; [|split]]].
      * intros s. rewrite keys_dict_set.
        assert (s ∈ keys s1 ++ [src] <-> s ∈ keys s1 \/ s = src) as Happ.
        { rewrite elem_of_app, list_elem_of_singleton. done. }
        assert (forall P : Prop, (s ∈ keys s1 \/ s = src <-> P) ->
                  (s ∈ (if bool_decide (src ∈ keys s1) then keys s1
                        else keys s1 ++ [src]) <-> P)) as Hif.
        { intros P HP. case_bool_decide; [|by rewrite Happ].
          rewrite <- HP. split; [by left|]. by intros [?| ->]. }
        apply Hif. rewrite Hk. split.
        -- intros [(f & Hf & Hf')| ->].
           ++ exists f. split; [|done]. apply elem_of_app. by left.
           ++ exists file. split; [|done]. apply elem_of_app. right. left.
        -- intros (f & [Hf|Hf%list_elem_of_singleton]%elem_of_app & Hf').
           ++ left. by exists f.
           ++ right. congruence.
      * intros x y a. rewrite !dict_get_set.
        destruct (String.eqb_spec x src) as [-> |Hx],
                 (String.eqb_spec y src) as [-> |Hy]; try done.
        -- intros [= <-] Hy'%Ha. by apply Nat.lt_irrefl in Hy'.
        -- intros Hx'%Ha [= <-]. by apply Nat.lt_irrefl in Hx'.
        -- apply Hd.
      * intros s a. rewrite dict_get_set, Hlen'.
        destruct (String.eqb_spec s src) as [-> |Hs].
        -- intros [= <-]. apply Nat.lt_succ_diag_r.
        -- intros H%Ha. by apply Nat.lt_lt_succ_r.
      * rewrite Hlen'. by apply Nat.le_le_succ_r.
      * intros a Hlt. rewrite Hold'; [by apply Hold|].
        eapply Nat.lt_le_trans; done.
    + split; [|done]. intros s. rewrite Hk. split.
      * intros (f & Hf & Hf'). exists f. split; [|done].
        apply elem_of_app. by left.
      * intros (f & [Hf|Hf%list_elem_of_singleton]%elem_of_app & Hf').
        -- by exists f.
        -- injection Hf as -> ->. congruence.
Qed.

(** ** The targets of a track *)

Section dict_set_facts.
Context {V : Type}.
Implicit Types (d : dict V) (k : string) (v : V).

Lemma elem_of_dict_set k v k' v' d :
  (k', v') ∈ dict_set k v d -> (k', v') ∈ d \/ (k' = k /\ v' = v).
Proof.
  induction d as [|[k1 v1] d IH]; simpl.
  - intros [= -> ->]%list_elem_of_singleton. by right.
  - destruct (String.eqb_spec k k1) as [-> |Hne].
    + intros [[= -> ->]|H]%elem_of_cons; [by right|]. left. by right.
    + intros [[= -> ->]|H]%elem_of_cons; [left; left|].
      destruct (IH H) as [?|?]; [left; by right|by right].
Qed.

Lemma dict_set_fresh k v d : k ∉ keys d -> dict_set k v d = d ++ [(k, v)].
Proof.
  unfold keys. induction d as [|[k1 v1] d IH]; csimpl; [done|].
  rewrite not_elem_of_cons. intros [Hne Hd].
  destruct (String.eqb_spec k k1); [done|]. by rewrite IH.
Qed.
End dict_set_facts.

Lemma target_step_eq sources targets it :
  target_step sources targets it =
  match target_of sources it with
  | Some (name, tg) => dict_set name tg targets
  | None => targets
  end.
Proof. unfold target_step, target_of. by destruct (resolved _ _). Qed.

Lemma target_of_Some sources n spec n' tg :
  target_of sources (n, spec) = Some (n', tg) ->
  n' = n /\ resolved sources spec ≠ [] /\
  tg = {| Target.sources := resolved sources spec; Target.name := n |}.
Proof.
  unfold target_of. simpl. destruct (resolved sources spec); [done|].
  by intros [= <- <-].
Qed.

Lemma targets_fold_elem sources l acc name tg :
  (name, tg) ∈ foldl (target_step sources) acc l ->
  (name, tg) ∈ acc \/
  exists spec, (name, spec) ∈ l /\ target_of sources (name, spec) = Some (name, tg).
Proof.
  revert acc. induction l as [|[n spec] l IH]; intros acc; simpl; [by left|].
  intros [H|(spec' & Hin & Ht)]%IH.
  - rewrite target_step_eq in H.
    destruct (target_of sources (n, spec)) as [[n' tg']|] eqn:Ht; [|by left].
    pose proof (target_of_Some _ _ _ _ _ Ht) as (-> & _ & _).
    apply elem_of_dict_set in H as [H|[-> ->]]; [by left|].
    right. exists spec. split; [left|done].
  - right. exists spec'. split; [by right|done].
Qed.

Lemma targets_fold_keys sources l acc name :
  name ∈ keys (foldl (target_step sources) acc l) <->
  name ∈ keys acc \/
  exists spec, (name, spec) ∈ l /\ resolved sources spec ≠ [].
Proof.
  revert acc. induction l as [|[n spec] l IH]; intros acc; simpl.
  - split; [by left|]. by intros [?|(? & ?%elem_of_nil & _)].
  - rewrite IH. unfold target_step. simpl. split.
    + intros [H|(spec' & Hin & Hne)].
      * destruct (resolved sources spec) as [|a r] eqn:Hr; [by left|].
        rewrite keys_dict_set in H. case_bool_decide; [by left|].
        apply elem_of_app in H as [?| ->%list_elem_of_singleton]; [by left|].
        right. exists spec. split; [left|by rewrite Hr].
      * right. exists spec'. split; [by right|done].
    + intros [H|(spec' & [[= -> ->]|Hin]%elem_of_cons & Hne)].
      * left. destruct (resolved sources spec); [done|].
        rewrite keys_dict_set. case_bool_decide; [done|].
        apply elem_of_app. by left.
      * left. destruct (resolved sources spec) eqn:Hr; [done|].
        rewrite keys_dict_set. case_bool_decide; [done|].
        apply elem_of_app. right. left.
      * right. by exists spec'.
Qed.

(** With unique target names, the targets come in specification order. *)
Lemma targets_fold_order sources l acc :
  NoDup (keys acc ++ keys l) ->
  foldl (target_step sources) acc l = acc ++ omap (target_of sources) l.
Proof.
  revert acc. induction l as [|[n spec] l IH]; intros acc Hnd; simpl.
  - by rewrite app_nil_r.
  - unfold keys in Hnd. rewrite fmap_cons in Hnd. simpl in Hnd.
    rewrite target_step_eq.
    destruct (target_of sources (n, spec)) as [[n' tg']|] eqn:Ht.
    + pose proof (target_of_Some _ _ _ _ _ Ht) as (-> & _ & _).
      assert (n ∉ keys acc) as Hfresh.
      { apply NoDup_app in Hnd as (_ & Hdis & _).
        intros Hin. apply (Hdis _ Hin). left. }
      rewrite dict_set_fresh by done.
      rewrite IH; [by rewrite <- app_assoc|].
      unfold keys. rewrite fmap_app. csimpl. by rewrite <- app_assoc.
    + apply IH. apply NoDup_app in Hnd as (H1 & H2 & H3).
      apply NoDup_app. split; [done|]. split.
      * intros x Hx Hx'. apply (H2 x Hx). by right.
      * by apply NoDup_cons in H3 as [_ ?].
Qed.

(** ** The gains in the store *)

Lemma gain_step_length sources h it :
  length (gain_step sources h it) = length h.
Proof.
  unfold gain_step.
  destruct (dict_get _ _); [|done].
  destruct (py_float _); [apply length_alter|done].
Qed.

Lemma gains_fold_length sources l h :
  length (foldl (gain_step sources) h l) = length h.
Proof.
  revert h. induction l as [|it l IH]; intros h; simpl; [done|].
  by rewrite IH, gain_step_length.
Qed.

(** A store cell that no pair of the specification refers to is left alone. *)
Lemma gains_fold_other sources l h a :
  (forall it, it ∈ l -> dict_get it.1 sources ≠ Some a) ->
  foldl (gain_step sources) h l !! a = h !! a.
Proof.
  revert h. induction l as [|it l IH]; intros h Hno; simpl; [done|].
  rewrite IH by (intros; apply Hno; by right).
  unfold gain_step. destruct (dict_get it.1 sources) as [a'|] eqn:Hit; [|done].
  destruct (py_float it.2); [|done].
  apply list_lookup_alter_ne. intros ->. by apply (Hno it); [left|].
Qed.

(** After the pairs of one target, a referenced source holds the gain that
    the target declares for it. *)
Lemma gains_fold_declared sources l h src g x a :
  NoDup (keys l) -> distinct_refs sources ->
  (src, g) ∈ l -> py_float g = Some x ->
  dict_get src sources = Some a -> (a < length h)%nat ->
  Source.gain <$> foldl (gain_step sources) h l !! a = Some x.
Proof.
  intros Hnd Hd. revert h.
  induction l as [|[s g'] l IH]; intros h Hin Hx Ha Hlt; simpl.
  - by apply elem_of_nil in Hin.
  - unfold keys in Hnd. rewrite fmap_cons in Hnd.
    apply NoDup_cons in Hnd as [Hs Hnd].
    apply elem_of_cons in Hin as [[= <- <-]|Hin].
    + rewrite gains_fold_other.
      * unfold gain_step. simpl. rewrite Ha, Hx, list_lookup_alter_eq.
        apply lookup_lt_is_Some_2 in Hlt as [y ->]. done.
      * intros [s' g''] Hin' Hs'. simpl in *.
        assert (s' = src) as -> by (by eapply Hd).
        apply Hs. apply list_elem_of_fmap. by exists (src, g'').
    + apply IH; try done. by rewrite gain_step_length.
Qed.

(** ** The catalog *)

Lemma gains_all_length sources (l : dict (dict number)) (h : heap) :
  length (foldl (fun h it => foldl (gain_step sources) h it.2) h l)
  = length h.
Proof.
  revert h. induction l as [|it l IH]; intros h; simpl; [done|].
  by rewrite IH, gains_fold_length.
Qed.

(** What a returning [add_track] has appended. *)
Lemma add_track_ok self fs subset name tf fnum tracks h tracks' h' :
  add_track self fs subset name tf fnum tracks h = Ok (tracks', h') ->
  exists t,
    tracks' = tracks ++ [t] /\
    MultiTrack.subset t = subset /\ MultiTrack.name t = name /\
    MultiTrack.path t = op_join tf [fnum; Setup.mixture (DB.setup self)] /\
    (forall src, src ∈ keys (MultiTrack.sources t) <->
                 present fs tf fnum (Setup.sources (DB.setup self)) src) /\
    distinct_refs (MultiTrack.sources t) /\
    allocated (MultiTrack.sources t) h' /\
    MultiTrack.targets t =
      foldl (target_step (MultiTrack.sources t)) []
            (Setup.targets (DB.setup self)).
Proof.
  unfold add_track, bind.
  rewrite getitem_eq. destruct (dict_get _ _) as [sid|]; [|done].
  rewrite getattr_sample_rate_eq. destruct (DB.sample_rate self); [|done].
  destruct (for_ _ _ _ _) as [[sources h1]|] eqn:Hs; [|done].
  rewrite create_targets_eq.
  destruct (gains_overflow _ _) eqn:Hov; [done|]. intros [= <- <-].
  apply sources_loop_ok in Hs as (Hk & Hd & Ha & _ & _).
  eexists. split; [done|]. simpl. repeat split; try done; try apply Hk.
  intros s a Hsa. simpl.
  rewrite gains_all_length. by eapply Ha.
Qed.

Lemma add_track_total self fs subset name tf fnum tracks h :
  indexable self ->
  exists tracks' h', add_track self fs subset name tf fnum tracks h
                     = Ok (tracks', h').
Proof.
  intros ([v Hv] & [sid Hsid] & Hsrc & Hgain). unfold add_track, bind.
  rewrite getitem_eq, Hsid, getattr_sample_rate_eq, Hv.
  destruct (for_inv_total (fun _ _ _ => True)
              (Setup.sources (DB.setup self))
              (add_source self fs tf fnum) [] h I)
    as (sources & h1 & Hs & _).
  - intros _ [src file] s1 h1 Hin _. unfold add_source, bind.
    destruct (os_path_exists _ _); [|by eexists _, _].
    destruct (Hsrc src) as [i Hi].
    { apply list_elem_of_fmap. by exists (src, file). }
    rewrite getitem_eq, Hi, getattr_sample_rate_eq, Hv.
    by eexists _, _.
  - rewrite Hs, create_targets_eq.
    apply sources_loop_ok in Hs as (Hk & _).
    replace (gains_overflow _ _) with false; [by eexists _, _|].
    symmetry. apply gains_overflow_false. simpl.
    intros tname spec src g Hspec Hg (file & Hfile & _)%Hk.
    apply (Hgain tname spec src g Hspec Hg).
    apply list_elem_of_fmap. by exists (src, file).
Qed.

(** The catalog lists the reached tracks in traversal order. *)
Lemma load_mus_tracks_catalog (R : MultiTrack.t -> track_key -> Prop)
    self fs subsets split h tracks h' :
  (forall k tracks0 h0 tracks1 h1 t,
     add_track_key self fs k tracks0 h0 = Ok (tracks1, h1) ->
     tracks1 = tracks0 ++ [t] -> R t k) ->
  load_mus_tracks self fs subsets split h = Ok (tracks, h') ->
  Forall2 R tracks (track_keys self fs subsets split).
Proof.
  intros HR.
  destruct (decide (split_misused subsets split)) as [Hbad|Hok].
  { rewrite load_mus_tracks_eq. by rewrite decide_True. }
  rewrite load_mus_tracks_flat by done.
  apply (for_inv (fun done tracks _ => Forall2 R tracks done)); [done|].
  intros done k s1 h1 s2 h2 _ HI Hk.
  pose proof Hk as Hk'. unfold add_track_key in Hk'.
  apply add_track_ok in Hk' as (t & -> & _).
  apply Forall2_app; [done|]. constructor; [|done]. by eapply HR.
Qed.

Lemma load_mus_tracks_total self fs subsets split h :
  indexable self -> ~ split_misused subsets split ->
  exists tracks h', load_mus_tracks self fs subsets split h = Ok (tracks, h').
Proof.
  intros Hidx Hok. rewrite load_mus_tracks_flat by done.
  destruct (for_inv_total (fun _ _ _ => True)
              (track_keys self fs subsets split)
              (add_track_key self fs) [] h I)
    as (tracks & h' & -> & _); [|by eexists _, _].
  intros _ k s1 h1 _ _. unfold add_track_key.
  destruct (add_track_total self fs k.1.1 k.1.2
              (track_folder_of self k.1.1 k.1.2) k.2 s1 h1 Hidx)
    as (t' & h2 & ->).
  by eexists _, _.
Qed.

Lemma resolved_elem sources spec a :
  a ∈ resolved sources spec <->
  exists src g, (src, g) ∈ spec /\ dict_get src sources = Some a.
Proof.
  unfold resolved. rewrite list_elem_of_omap. split.
  - intros ([src g] & Hin & Hget). by exists src, g.
  - intros (src & g & Hin & Hget). by exists (src, g).
Qed.

Lemma resolved_nonempty sources (spec : dict number) :
  resolved sources spec ≠ [] <->
  exists src, src ∈ keys spec /\ src ∈ keys sources.
Proof.
  split.
  - destruct (resolved sources spec) as [|a r] eqn:Hr; [done|]. intros _.
    assert (a ∈ resolved sources spec) as Ha by (rewrite Hr; left).
    apply resolved_elem in Ha as (src & g & Hin & Hget).
    exists src. split.
    + apply list_elem_of_fmap. by exists (src, g).
    + apply dict_get_is_Some. by exists a.
  - intros (src & Hin & [a Ha]%dict_get_is_Some) Hr.
    apply list_elem_of_fmap in Hin as ([src' g] & -> & Hin). simpl in Ha.
    assert (a ∈ resolved sources spec) as Hel.
    { apply resolved_elem. by exists src', g. }
    rewrite Hr in Hel. by apply elem_of_nil in Hel.
Qed.

(** C5: every track of a returned catalog stands for one reached (subset,
    track name, variant) key, in traversal order, and for that track: a
    declared source is in [sources] iff its file exists at the candidate path
    of line 202; every target lists only references that [sources] holds,
    so a source without file is in no target's list; and a target is in
    [targets] iff one of its declared sources is in [sources], so a target
    whose list would be empty is absent.  No file decides whether indexing
    returns: it does, on every directory tree, whenever the configuration
    resolves every lookup and every gain declared for a declared source
    converts to a float. *)
Theorem partial_tracks_are_indexed self fs subsets split h :
  (forall tracks h',
     load_mus_tracks self fs subsets split h = Ok (tracks, h') ->
     Forall2
       (fun t k =>
          let track_folder := track_folder_of self k.1.1 k.1.2 in
          MultiTrack.subset t = k.1.1 /\ MultiTrack.name t = k.1.2 /\
          MultiTrack.path t =
            op_join track_folder [k.2; Setup.mixture (DB.setup self)] /\
          (forall src,
             src ∈ keys (MultiTrack.sources t) <->
             exists file,
               (src, file) ∈ Setup.sources (DB.setup self) /\
               os_path_exists fs (op_join track_folder [k.2; file]) = true) /\
          (forall name tg,
             (name, tg) ∈ MultiTrack.targets t ->
             Target.sources tg ≠ [] /\
             exists spec,
               (name, spec) ∈ Setup.targets (DB.setup self) /\
               forall a, a ∈ Target.sources tg ->
                         exists src, src ∈ keys spec /\
                           dict_get src (MultiTrack.sources t) = Some a) /\
          (forall name,
             name ∈ keys (MultiTrack.targets t) <->
             exists spec,
               (name, spec) ∈ Setup.targets (DB.setup self) /\
               exists src, src ∈ keys spec /\
                           src ∈ keys (MultiTrack.sources t)))
       tracks (track_keys self fs subsets split)) /\
  (indexable self -> ~ split_misused subsets split ->
   exists tracks h',
     load_mus_tracks self fs subsets split h = Ok (tracks, h')).
Proof.
  split; [|apply load_mus_tracks_total].
  intros tracks h'. apply load_mus_tracks_catalog.
  intros k tracks0 h0 tracks1 h1 t Hk ->. unfold add_track_key in Hk.
  apply add_track_ok in Hk
    as (t' & <-%app_inj_tail_iff%proj2 & Hsub & Hname & Hpath & Hsrc & _ & _ & Htg).
  simpl. split; [done|]. split; [done|]. split; [done|].
  split; [apply Hsrc|]. split.
  - intros name tg Hin. rewrite Htg in Hin.
    apply targets_fold_elem in Hin as [Hin|(spec & Hin & Ht)];
      [by apply elem_of_nil in Hin|].
    apply target_of_Some in Ht as (_ & Hne & ->). simpl.
    split; [done|]. exists spec. split; [done|].
    intros a (src & g & Hsg & Hget)%resolved_elem.
    exists src. split; [|done]. apply list_elem_of_fmap. by exists (src, g).
  - intros name. rewrite Htg, targets_fold_keys. split.
    + intros [Hin|(spec & Hin & Hne)]; [by apply elem_of_nil in Hin|].
      exists spec. split; [done|]. by apply resolved_nonempty.
    + intros (spec & Hin & Hne). right. exists spec. split; [done|].
      by apply resolved_nonempty.
Qed.

(** The example configuration resolves every lookup, and its gains are
    small. *)
Lemma ex_db_indexable : indexable ex_db.
Proof.
  split; [by eexists|]. split; [by eexists|]. split.
  - intros src Hin. vm_compute in Hin.
    repeat (apply elem_of_cons in Hin as [-> |Hin]; [by eexists|]).
    by apply elem_of_nil in Hin.
  - by apply gains_overflow_false.
Qed.

Lemma partial_tracks_are_indexed_witness :
  exists tracks h',
    load_mus_tracks ex_db ex_fs (Some (Str "train")) None [] = Ok (tracks, h') /\
    length tracks = 3%nat.
Proof.
  destruct (partial_tracks_are_indexed ex_db ex_fs (Some (Str "train")) None [])
    as [Hcat Htot].
  destruct Htot as (tracks & h' & Hl).
  - apply ex_db_indexable.
  - intros [_ H]. by apply H.
  - exists tracks, h'. split; [done|].
    apply Hcat in Hl. by apply Forall2_length in Hl.
Defined.

(** ** The train/validation split *)

(** The names of a returned catalog are those of the reached keys. *)
Lemma load_mus_tracks_names self fs subsets split h tracks h' :
  load_mus_tracks self fs subsets split h = Ok (tracks, h') ->
  MultiTrack.name <$> tracks
  = (fun k : track_key => k.1.2) <$> track_keys self fs subsets split.
Proof.
  intros Hl.
  assert (Forall2 (fun t (k : track_key) => MultiTrack.name t = k.1.2)
                  tracks (track_keys self fs subsets split)) as HF.
  { revert Hl. apply load_mus_tracks_catalog.
    intros k tracks0 h0 tracks1 h1 t Hk ->. unfold add_track_key in Hk.
    by apply add_track_ok in Hk
      as (t' & <-%app_inj_tail_iff%proj2 & _ & Hname & _). }
  clear Hl. induction HF as [|t k ts ks Ht _ IH]; [done|].
  rewrite !fmap_cons. by f_equal.
Qed.

(** The names that indexing the "train" subset reaches: the candidate names
    that the split keeps and that have a variant folder. *)
Lemma train_names self fs split n :
  n ∈ (fun k : track_key => k.1.2)
        <$> track_keys self fs (Some (Str "train")) split <->
  DB.is_wav self = true /\ n ∈ candidates self fs "train" /\
  split_skips self "train" split n = false /\
  variants fs (track_folder_of self "train" n) ≠ [].
Proof.
  unfold track_keys. simpl. rewrite app_nil_r. unfold subset_keys.
  destruct (DB.is_wav self).
  2:{ split; [by intros ?%elem_of_nil|]. by intros [? _]. }
  rewrite list_elem_of_fmap. split.
  - intros (k & -> & (name & Hc & Hk)%elem_of_flat_map).
    unfold name_keys in Hk.
    destruct (split_skips self "train" split name) eqn:Hs;
      [by apply elem_of_nil in Hk|].
    apply list_elem_of_fmap in Hk as (v & -> & Hv). simpl.
    repeat split; try done. intros Hnil. rewrite Hnil in Hv.
    by apply elem_of_nil in Hv.
  - intros (_ & Hc & Hs & Hv).
    destruct (variants fs (track_folder_of self "train" n)) as [|v vs] eqn:E;
      [done|].
    exists ("train", n, v). split; [done|].
    apply elem_of_flat_map. exists n. split; [done|].
    unfold name_keys. rewrite Hs, E. left.
Qed.

(** C4: for one object (so one validation set) and one directory tree, the
    catalogs of [subsets="train"] with [split="train"], with [split="valid"]
    and without split, whenever the three calls return: no track name is in
    both split catalogs, and a name is in the unsplit catalog iff it is in
    one of the two.  Under a configuration that resolves every lookup and
    whose declared gains convert to floats the three calls do return. *)
Theorem split_partitions_train_names self fs ha hb hc :
  (forall tr va al ha' hb' hc',
     load_mus_tracks self fs (Some (Str "train")) (Some "train") ha
       = Ok (tr, ha') ->
     load_mus_tracks self fs (Some (Str "train")) (Some "valid") hb
       = Ok (va, hb') ->
     load_mus_tracks self fs (Some (Str "train")) None hc = Ok (al, hc') ->
     (forall n, ~ (n ∈ MultiTrack.name <$> tr /\ n ∈ MultiTrack.name <$> va)) /\
     (forall n, n ∈ MultiTrack.name <$> al <->
                n ∈ MultiTrack.name <$> tr \/ n ∈ MultiTrack.name <$> va)) /\
  (indexable self ->
   exists tr va al ha' hb' hc',
     load_mus_tracks self fs (Some (Str "train")) (Some "train") ha
       = Ok (tr, ha') /\
     load_mus_tracks self fs (Some (Str "train")) (Some "valid") hb
       = Ok (va, hb') /\
     load_mus_tracks self fs (Some (Str "train")) None hc = Ok (al, hc')).
Proof.
  split.
  - intros tr va al ha' hb' hc' Htr Hva Hal.
    rewrite (load_mus_tracks_names _ _ _ _ _ _ _ Htr).
    rewrite (load_mus_tracks_names _ _ _ _ _ _ _ Hva).
    rewrite (load_mus_tracks_names _ _ _ _ _ _ _ Hal).
    split; intros n; rewrite !train_names; unfold split_skips; simpl.
    + intros [(_ & _ & H1 & _) (_ & _ & H2 & _)].
      destruct (bool_decide (n ∈ Setup.validation_tracks (DB.setup self)));
        done.
    + destruct (bool_decide (n ∈ Setup.validation_tracks (DB.setup self)));
        simpl; tauto.
  - intros Hidx.
    assert (forall split, ~ split_misused (Some (Str "train")) split) as Hok.
    { intros split [H _]. by apply H. }
    destruct (load_mus_tracks_total self fs (Some (Str "train"))
                (Some "train") ha Hidx (Hok _)) as (tr & ha' & Htr).
    destruct (load_mus_tracks_total self fs (Some (Str "train"))
                (Some "valid") hb Hidx (Hok _)) as (va & hb' & Hva).
    destruct (load_mus_tracks_total self fs (Some (Str "train"))
                None hc Hidx (Hok _)) as (al & hc' & Hal).
    by exists tr, va, al, ha', hb', hc'.
Qed.

Lemma split_partitions_train_names_witness :
  exists tr va al ha' hb' hc',
    load_mus_tracks ex_db ex_fs (Some (Str "train")) (Some "train") []
      = Ok (tr, ha') /\
    load_mus_tracks ex_db ex_fs (Some (Str "train")) (Some "valid") []
      = Ok (va, hb') /\
    load_mus_tracks ex_db ex_fs (Some (Str "train")) None [] = Ok (al, hc') /\
    MultiTrack.name <$> tr = ["Song A"; "Song A"] /\
    MultiTrack.name <$> va = ["Song B"] /\
    MultiTrack.name <$> al = ["Song A"; "Song A"; "Song B"].
Proof.
  destruct (split_partitions_train_names ex_db ex_fs [] [] []) as [_ Htot].
  destruct Htot as (tr & va & al & ha' & hb' & hc' & Htr & Hva & Hal).
  - apply ex_db_indexable.
  - exists tr, va, al, ha', hb', hc'.
    split; [done|]. split; [done|]. split; [done|].
    vm_compute in Htr, Hva, Hal.
    injection Htr as <- _. injection Hva as <- _. injection Hal as <- _.
    done.
Defined.

(** ** Gain propagation *)

Lemma gains_all_other sources (l : dict (dict number)) (h : heap) a :
  (forall it p, it ∈ l -> p ∈ it.2 -> dict_get p.1 sources ≠ Some a) ->
  foldl (fun h it => foldl (gain_step sources) h it.2) h l !! a = h !! a.
Proof.
  revert h. induction l as [|it l IH]; intros h Hno; simpl; [done|].
  rewrite IH by (intros; eapply Hno; [by right|done]).
  apply gains_fold_other. intros p Hp. eapply Hno; [left|done].
Qed.

(** C6: composing one target entry [(name, spec)] walks the declared
    (source, gain) pairs in order.  When [float(gain)] is defined for the
    declared pairs whose source the track holds, the target's source list is
    the list of references of those sources, in declaration order (a pair
    whose source is missing adds nothing), and afterwards every such source
    holds its declared gain as a float; when it is not, line 233 raises
    [OverflowError].  Over all entries, the targets (those with a non-empty
    list) come in specification order. *)
Theorem create_targets_in_declared_order self track name spec targets h :
  NoDup (keys spec) ->
  distinct_refs (MultiTrack.sources track) ->
  allocated (MultiTrack.sources track) h ->
  let refs (spec : dict number) : list addr :=
    omap (fun it => dict_get it.1 (MultiTrack.sources track)) spec in
  (gains_convert (keys (MultiTrack.sources track)) [(name, spec)] ->
   exists h1,
     add_target track (name, spec) targets h =
       Ok (match refs spec with
           | [] => targets
           | l => dict_set name {| Target.sources := l; Target.name := name |}
                           targets
           end, h1) /\
     forall src g a,
       (src, g) ∈ spec ->
       dict_get src (MultiTrack.sources track) = Some a ->
       exists x, py_float g = Some x /\ Source.gain <$> h1 !! a = Some x) /\
  (~ gains_convert (keys (MultiTrack.sources track)) [(name, spec)] ->
   add_target track (name, spec) targets h = Raise OverflowError) /\
  (NoDup (keys (Setup.targets (DB.setup self))) ->
   gains_convert (keys (MultiTrack.sources track))
                 (Setup.targets (DB.setup self)) ->
   exists h',
     create_targets self track h =
       Ok (omap (fun it =>
                   match refs it.2 with
                   | [] => None
                   | l => Some (it.1, {| Target.sources := l;
                                         Target.name := it.1 |})
                   end)
                (Setup.targets (DB.setup self)), h')).
Proof.
  intros Hnd Hd Ha refs.
  assert (existsb (overflows (keys (MultiTrack.sources track))) spec
          = gains_overflow (keys (MultiTrack.sources track)) [(name, spec)])
    as Hone by (unfold gains_overflow; simpl; by rewrite orb_false_r).
  split; [|split].
  - intros Hconv. rewrite add_target_eq. simpl. rewrite Hone.
    rewrite (proj2 (gains_overflow_false _ _) Hconv).
    eexists. split; [done|].
    intros src g a Hin Hget.
    destruct (Hconv name spec src g) as [x Hx]; [left|done| |].
    { apply dict_get_is_Some. by exists a. }
    exists x. split; [done|].
    eapply gains_fold_declared; try done. by eapply Ha.
  - intros Hconv. rewrite add_target_eq. simpl. rewrite Hone.
    destruct (gains_overflow _ _) eqn:Hov; [done|].
    by apply gains_overflow_false in Hov.
  - intros Hnd' Hconv. rewrite create_targets_eq.
    rewrite (proj2 (gains_overflow_false _ _) Hconv).
    eexists. f_equal. f_equal.
    by rewrite targets_fold_order.
Qed.

Lemma create_targets_in_declared_order_witness :
  let track :=
    MultiTrack.set_sources [("sourceA", 0%nat); ("sourceB", 1%nat)]
      (new_MultiTrack "Song A" [] "train" true 0 None) in
  let src n := {| Source.name := n; Source.path := []; Source.stem_id := 0;
                  Source.sample_rate := None; Source.gain := 1%float |} in
  (exists h1,
     add_target track
       ("mix", [("sourceA", NFloat 0.5); ("missing", NInt (2 ^ 1024));
                ("sourceB", NInt 1)])
       [] [src "sourceA"; src "sourceB"]
     = Ok ([("mix", {| Target.sources := [0%nat; 1%nat];
                       Target.name := "mix" |})], h1) /\
     Source.gain <$> h1 !! 0%nat = Some 0.5%float /\
     Source.gain <$> h1 !! 1%nat = Some 1%float) /\
  add_target track ("mix", [("sourceA", NFloat 0.5);
                            ("sourceB", NInt (2 ^ 1024))])
             [] [src "sourceA"; src "sourceB"]
  = Raise OverflowError.
Proof.
  intros track src.
  assert (distinct_refs (MultiTrack.sources track)) as Hd.
  { intros s1 s2 a H1 H2. simpl in H1, H2.
    repeat match goal with
           | H : context [String.eqb ?x ?y] |- _ =>
               destruct (String.eqb_spec x y)
           end; congruence. }
  assert (allocated (MultiTrack.sources track)
                    [src "sourceA"; src "sourceB"]) as Ha.
  { intros s a. simpl.
    destruct (String.eqb s "sourceA"); [intros [= <-]; simpl; lia|].
    destruct (String.eqb s "sourceB"); [intros [= <-]; simpl; lia|done]. }
  split.
  2:{ destruct (create_targets_in_declared_order ex_db track "mix"
                  [("sourceA", NFloat 0.5); ("sourceB", NInt (2 ^ 1024))]
                  [] [src "sourceA"; src "sourceB"])
        as (_ & Hbad & _); [|exact Hd|exact Ha|].
      - unfold keys. simpl. repeat constructor; rewrite ?not_elem_of_cons;
          repeat split; try discriminate; apply not_elem_of_nil.
      - apply Hbad. intros Hconv%gains_overflow_false.
        vm_compute in Hconv. discriminate. }
  destruct (create_targets_in_declared_order ex_db track "mix"
              [("sourceA", NFloat 0.5); ("missing", NInt (2 ^ 1024));
               ("sourceB", NInt 1)]
              [] [src "sourceA"; src "sourceB"])
    as [Hok _].
  - unfold keys. simpl. repeat constructor; rewrite ?not_elem_of_cons;
      repeat split; try discriminate; apply not_elem_of_nil.
  - exact Hd.
  - exact Ha.
  - destruct Hok as (h1 & Hrun & Hgain); [by apply gains_overflow_false|].
    exists h1. split; [exact Hrun|]. split.
    + destruct (Hgain "sourceA" (NFloat 0.5) 0%nat) as (x & Hx & Hg);
        [left|reflexivity|]. exact (eq_trans Hg (eq_sym Hx)).
    + destruct (Hgain "sourceB" (NInt 1) 1%nat) as (x & Hx & Hg);
        [right; right; left|reflexivity|]. exact (eq_trans Hg (eq_sym Hx)).
Defined.

(** C7: a [Source] is one store cell with one [gain], shared through its
    reference by every target that lists it.  After [create_targets], a
    source of the track that several targets declare holds the gain of the
    last specification entry that declares it (no later entry does), the
    gains written for earlier entries being overwritten; and with unique
    target names every target that declares the source lists that same
    reference.  [create_targets] returns because [float(gain)] is defined
    for the declared gains of the track's sources. *)
Theorem last_target_gain_wins self track h pre name spec post src g a :
  Setup.targets (DB.setup self) = pre ++ (name, spec) :: post ->
  NoDup (keys spec) -> (src, g) ∈ spec ->
  (forall it, it ∈ post -> src ∉ keys it.2) ->
  distinct_refs (MultiTrack.sources track) ->
  dict_get src (MultiTrack.sources track) = Some a ->
  (a < length h)%nat ->
  gains_convert (keys (MultiTrack.sources track))
                (Setup.targets (DB.setup self)) ->
  exists targets h' x,
    create_targets self track h = Ok (targets, h') /\
    py_float g = Some x /\
    Source.gain <$> h' !! a = Some x /\
    length h' = length h /\
    (NoDup (keys (Setup.targets (DB.setup self))) ->
     forall n spec',
       (n, spec') ∈ Setup.targets (DB.setup self) -> src ∈ keys spec' ->
       exists tg, (n, tg) ∈ targets /\ Target.name tg = n /\
                  a ∈ Target.sources tg).
Proof.
  intros Hspec Hnd Hin Hpost Hd Hget Hlt Hconv.
  rewrite create_targets_eq.
  rewrite (proj2 (gains_overflow_false _ _) Hconv).
  destruct (Hconv name spec src g) as [x Hx]; [|done| |].
  { rewrite Hspec. apply elem_of_app. right. left. }
  { apply dict_get_is_Some. by exists a. }
  eexists _, _, x. split; [done|]. split; [done|].
  split; [|split].
  - rewrite Hspec, foldl_app. simpl. rewrite gains_all_other.
    + apply (gains_fold_declared _ _ _ src g x a); try done.
      by rewrite gains_all_length.
    + intros it [s g'] Hit Hp Hs. simpl in Hs.
      assert (s = src) as -> by (by eapply Hd).
      apply (Hpost it Hit). apply list_elem_of_fmap. by exists (src, g').
  - apply gains_all_length.
  - intros Hnd' n spec' Hn Hsrc.
    rewrite targets_fold_order by done. simpl.
    apply list_elem_of_fmap in Hsrc as ([s g'] & -> & Hsg). simpl in Hget.
    assert (a ∈ resolved (MultiTrack.sources track) spec') as Ha.
    { apply resolved_elem. by exists s, g'. }
    exists {| Target.sources := resolved (MultiTrack.sources track) spec';
              Target.name := n |}.
    split; [|done]. apply list_elem_of_omap. exists (n, spec').
    split; [done|]. unfold target_of. simpl.
    destruct (resolved (MultiTrack.sources track) spec'); [|done].
    by apply elem_of_nil in Ha.
Qed.

Lemma last_target_gain_wins_witness :
  let track :=
    MultiTrack.set_sources [("drums", 0%nat); ("bass", 1%nat)]
      (new_MultiTrack "Song A" [] "train" true 0 None) in
  let src n := {| Source.name := n; Source.path := []; Source.stem_id := 0;
                  Source.sample_rate := None; Source.gain := 1%float |} in
  exists targets h',
    create_targets ex_db track [src "drums"; src "bass"] = Ok (targets, h') /\
    Source.gain <$> h' !! 0%nat = Some 0.5%float.
Proof.
  intros track src.
  destruct (last_target_gain_wins ex_db track [src "drums"; src "bass"]
              [("drums", [("drums", NInt 1)])] "accompaniment"
              [("drums", NFloat 0.5); ("bass", NInt 1)] []
              "drums" (NFloat 0.5) 0%nat)
    as (targets & h' & x & Hrun & Hx & Hgain & _).
  - reflexivity.
  - unfold keys. simpl. repeat constructor; rewrite ?not_elem_of_cons;
      repeat split; try discriminate; apply not_elem_of_nil.
  - left.
  - by intros it ?%elem_of_nil.
  - intros s1 s2 a H1 H2. simpl in H1, H2.
    repeat match goal with
           | H : context [String.eqb ?x ?y] |- _ =>
               destruct (String.eqb_spec x y)
           end; congruence.
  - reflexivity.
  - simpl. lia.
  - by apply gains_overflow_false.
  - exists targets, h'. split; [exact Hrun|].
    exact (eq_trans Hgain (eq_sym Hx)).
Defined.

(** ** The file system under the estimate writer *)

Section dict_more.
Context {V : Type}.
Implicit Types (d : dict V) (k : string) (v : V).

Lemma dict_set_same k v d : dict_get k d = Some v -> dict_set k v d = d.
Proof.
  induction d as [|[k1 v1] d IH]; simpl; [done|].
  destruct (String.eqb_spec k k1) as [-> |Hne].
  - by intros [= ->].
  - intros H. by rewrite IH.
Qed.

Lemma dict_set_set k v1 v2 d :
  dict_set k v2 (dict_set k v1 d) = dict_set k v2 d.
Proof.
  induction d as [|[k1 v'] d IH]; simpl.
  - by rewrite String.eqb_refl.
  - destruct (String.eqb_spec k k1) as [-> |Hne]; simpl.
    + by rewrite String.eqb_refl.
    + destruct (String.eqb_spec k k1); [done|]. by rewrite IH.
Qed.
End dict_more.

Lemma lookup_path_app p q n :
  lookup_path (p ++ q) n =
  match lookup_path p n with
  | Some m => lookup_path q m
  | None => None
  end.
Proof.
  revert n. induction p as [|c p IH]; intros n; simpl; [done|].
  destruct n as [|es]; [done|]. destruct (dict_get c es); [apply IH|done].
Qed.

Lemma lookup_replace_at p n' n n0 :
  lookup_path p n = Some n0 -> lookup_path p (replace_at p n' n) = Some n'.
Proof.
  revert n. induction p as [|c p IH]; intros n; simpl; [done|].
  destruct n as [|es]; [done|].
  destruct (dict_get c es) as [ch|] eqn:Hc; [|done].
  intros H. simpl. rewrite dict_get_set, String.eqb_refl. by apply IH.
Qed.

Lemma replace_at_same p n n0 :
  lookup_path p n = Some n0 -> replace_at p n0 n = n.
Proof.
  revert n. induction p as [|c p IH]; intros n; simpl; [by intros [= ->]|].
  destruct n as [|es]; [done|].
  destruct (dict_get c es) as [ch|] eqn:Hc; [|done].
  intros H. rewrite (IH _ H). by rewrite dict_set_same.
Qed.

Lemma replace_at_twice p n1 n2 n n0 :
  lookup_path p n = Some n0 ->
  replace_at p n2 (replace_at p n1 n) = replace_at p n2 n.
Proof.
  revert n. induction p as [|c p IH]; intros n; simpl; [done|].
  destruct n as [|es]; [done|].
  destruct (dict_get c es) as [ch|] eqn:Hc; [|done].
  intros H. simpl. rewrite dict_get_set, String.eqb_refl.
  by rewrite dict_set_set, (IH _ H).
Qed.

Lemma dirs_along_lookup p n m :
  dirs_along p n = true -> lookup_path p n = Some m -> is_dir m = true.
Proof.
  revert n. induction p as [|c p IH]; intros n; simpl.
  - destruct n; [done|]. by intros _ [= <-].
  - destruct n as [|es]; [done|].
    destruct (dict_get c es) as [ch|]; [apply IH|done].
Qed.

Lemma lookup_fresh_dirs p : lookup_path p (fresh_dirs p) = Some (Dir []).
Proof.
  induction p as [|c p IH]; simpl; [done|]. by rewrite String.eqb_refl.
Qed.

(** [os.makedirs] of a missing directory below directories returns, and the
    directory then exists, empty. *)
Lemma makedirs_ok p n :
  dirs_along p n = true -> lookup_path p n = None ->
  exists n', makedirs p n = Ok n' /\ lookup_path p n' = Some (Dir []).
Proof.
  revert n. induction p as [|c p IH]; intros n; simpl.
  - by destruct n.
  - destruct n as [|es]; [done|].
    destruct (dict_get c es) as [ch|] eqn:Hc.
    + intros Hd Hl. destruct (IH ch Hd Hl) as (ch' & -> & Hl').
      eexists. split; [done|]. simpl.
      by rewrite dict_get_set, String.eqb_refl.
    + intros _ _. eexists. split; [done|]. simpl.
      rewrite dict_get_set, String.eqb_refl. apply lookup_fresh_dirs.
Qed.

(** The codec's write of [c] in the directory at [p]. *)
Lemma write_file_eq p c f n es :
  lookup_path p n = Some (Dir es) ->
  (forall es', dict_get c es ≠ Some (Dir es')) ->
  write_file (p ++ [c]) f n = Ok (replace_at p (Dir (dict_set c f es)) n).
Proof.
  revert n. induction p as [|c' p IH]; intros n; simpl.
  - intros [= ->] Hno. destruct (dict_get c es) as [[|es']|] eqn:Hc; try done.
    by destruct (Hno es').
  - destruct n as [|es0]; [done|].
    destruct (dict_get c' es0) as [ch|] eqn:Hc'; [|done].
    intros Hl Hno. rewrite (IH ch Hl Hno).
    by destruct (p ++ [c]) eqn:E; [destruct p|].
Qed.

Lemma string_length_app (s w : string) :
  String.length (String.append s w) = (String.length s + String.length w)%nat.
Proof. induction s as [|c s IH]; simpl; [done|]. by rewrite IH. Qed.

(** Distinct target names give distinct file names. *)
Lemma append_inj_r (w s1 s2 : string) :
  String.append s1 w = String.append s2 w -> s1 = s2.
Proof.
  revert s2. induction s1 as [|c s1 IH]; intros [|c' s2]; simpl; try done.
  - intros H. apply (f_equal String.length) in H. simpl in H.
    rewrite !string_length_app in H. simpl in H. lia.
  - intros H. apply (f_equal String.length) in H. simpl in H.
    rewrite !string_length_app in H. simpl in H. lia.
  - intros [= -> H]. by rewrite (IH _ H).
Qed.

Lemma write_loop dir rate (estimates : dict buffer) fs es :
  lookup_path dir fs = Some (Dir es) ->
  (forall target es', target ∈ keys estimates ->
     dict_get (String.append target ".wav") es ≠ Some (Dir es')) ->
  for_ estimates
       (fun '(target, estimate) _ =>
          write_audio (op_join dir [String.append target ".wav"])
                      estimate rate)
       tt fs
  = Ok (tt, replace_at dir (Dir (foldl (write_entry rate) es estimates)) fs).
Proof.
  revert fs es. induction estimates as [|[t buf] l IH]; intros fs es Hl Hno.
  - simpl. by rewrite (replace_at_same _ _ _ Hl).
  - rewrite for_cons. unfold write_audio at 1, op_join.
    rewrite (write_file_eq _ _ _ _ es Hl).
    2:{ intros es'. apply Hno. left. }
    rewrite (IH _ (dict_set (String.append t ".wav") (File buf rate) es)).
    + simpl. by rewrite (replace_at_twice _ _ _ _ _ Hl).
    + by eapply lookup_replace_at.
    + intros t' es' Hin. rewrite dict_get_set.
      destruct (String.eqb _ _); [done|]. apply Hno. by right.
Qed.

Lemma write_entries_get rate (estimates : dict buffer) es t buf :
  NoDup (keys estimates) -> (t, buf) ∈ estimates ->
  dict_get (String.append t ".wav") (foldl (write_entry rate) es estimates)
  = Some (File buf rate).
Proof.
  intros Hnd Hin.
  assert (forall l es,
            t ∉ keys l ->
            dict_get (String.append t ".wav") (foldl (write_entry rate) es l)
            = dict_get (String.append t ".wav") es) as Hother.
  { clear. induction l as [|[t' b'] l IH]; intros es Hno; simpl; [done|].
    unfold keys in Hno. rewrite fmap_cons, not_elem_of_cons in Hno.
    destruct Hno as [Hne Hno]. rewrite IH by done.
    unfold write_entry. simpl. rewrite dict_get_set.
    destruct (String.eqb_spec (String.append t ".wav")
                              (String.append t' ".wav")) as [E|]; [|done].
    by apply append_inj_r in E. }
  revert es. induction estimates as [|[t' b'] l IH]; intros es; simpl.
  - by apply elem_of_nil in Hin.
  - unfold keys in Hnd. rewrite fmap_cons in Hnd.
    apply NoDup_cons in Hnd as [Hfresh Hnd].
    apply elem_of_cons in Hin as [[= <- <-]|Hin].
    + rewrite Hother by done. unfold write_entry. simpl.
      by rewrite dict_get_set, String.eqb_refl.
    + by apply IH.
Qed.

Lemma write_entries_fixed rate (estimates : dict buffer) es :
  (forall t buf, (t, buf) ∈ estimates ->
     dict_get (String.append t ".wav") es = Some (File buf rate)) ->
  foldl (write_entry rate) es estimates = es.
Proof.
  induction estimates as [|[t buf] l IH]; intros Hall; simpl; [done|].
  unfold write_entry at 2. simpl.
  rewrite dict_set_same by (apply Hall; left).
  apply IH. intros; apply Hall; by right.
Qed.

(** C9: with stem-container mode not requested, where no regular file stands
    in the way (along the track directory or as one of the .wav names being
    a directory), [save_estimates] returns; afterwards the directory
    [estimates_dir/track.subset/track.name] exists, hence its parents too,
    and each entry [(target, estimate)] of the mapping is the content of
    [estimates_dir/track.subset/track.name/target.wav], tagged with the
    track's rate; a second call with the same arguments returns as well and
    leaves the tree exactly as the first call left it. *)
Theorem save_estimates_writes_wav_files self (user_estimates : dict buffer)
    track estimates_dir fs :
  let dir := op_join estimates_dir
                     [MultiTrack.subset track; MultiTrack.name track] in
  NoDup (keys user_estimates) ->
  dirs_along dir fs = true ->
  (forall target es,
     target ∈ keys user_estimates ->
     lookup_path (op_join dir [String.append target ".wav"]) fs
     ≠ Some (Dir es)) ->
  exists fs',
    save_estimates self user_estimates track estimates_dir false fs
      = Ok (tt, fs') /\
    (exists es, lookup_path dir fs' = Some (Dir es)) /\
    (forall target estimate,
       (target, estimate) ∈ user_estimates ->
       lookup_path (op_join dir [String.append target ".wav"]) fs'
       = Some (File estimate (MultiTrack.rate track))) /\
    save_estimates self user_estimates track estimates_dir false fs'
      = Ok (tt, fs').
Proof.
  intros dir Hnd Hdirs Hno.
  (* the directory after the first statement of the method *)
  assert (exists fs1 es1,
            (if negb (os_path_exists fs dir) then os_makedirs dir fs
             else ret tt fs) = Ok (tt, fs1) /\
            lookup_path dir fs1 = Some (Dir es1) /\
            forall target es', target ∈ keys user_estimates ->
              dict_get (String.append target ".wav") es1 ≠ Some (Dir es'))
    as (fs1 & es1 & Hmk & Hl1 & Hno1).
  { unfold os_path_exists, os_makedirs.
    destruct (lookup_path dir fs) as [m|] eqn:Hl; simpl.
    - pose proof (dirs_along_lookup _ _ _ Hdirs Hl) as Hm.
      destruct m as [|es1]; [done|]. exists fs, es1.
      split; [done|]. split; [done|]. intros target es' Hin Hget.
      apply (Hno target es' Hin). unfold op_join.
      rewrite lookup_path_app, Hl. simpl. by rewrite Hget.
    - destruct (makedirs_ok _ _ Hdirs Hl) as (fs1 & -> & Hl1).
      exists fs1, []. split; [done|]. split; [done|]. done. }
  set (es' := foldl (write_entry (MultiTrack.rate track)) es1 user_estimates).
  exists (replace_at dir (Dir es') fs1).
  assert (lookup_path dir (replace_at dir (Dir es') fs1) = Some (Dir es'))
    as Hl' by (by eapply lookup_replace_at).
  assert (forall t buf, (t, buf) ∈ user_estimates ->
            dict_get (String.append t ".wav") es'
            = Some (File buf (MultiTrack.rate track))) as Hget.
  { intros t buf Hin. by apply write_entries_get. }
  split; [|split; [|split]].
  - unfold save_estimates, bind. fold dir. rewrite Hmk.
    by apply write_loop.
  - by exists es'.
  - intros target estimate Hin. unfold op_join.
    rewrite lookup_path_app, Hl'. simpl. by rewrite (Hget _ _ Hin).
  - unfold save_estimates, bind. fold dir.
    unfold os_path_exists. rewrite Hl'. simpl.
    rewrite (write_loop dir _ _ _ es' Hl').
    + rewrite write_entries_fixed by done.
      by rewrite (replace_at_same _ _ _ Hl').
    + intros target es'' Hin.
      apply list_elem_of_fmap in Hin as ([t buf] & -> & Hin). simpl.
      by rewrite (Hget _ _ Hin).
Qed.

Lemma save_estimates_writes_wav_files_witness :
  let track := new_MultiTrack "Song A" [] "test" true 0 (Some (NInt 44100)) in
  exists fs',
    save_estimates ex_db [("vocals", [1; 2; 3])] track ["out"] false (Dir [])
      = Ok (tt, fs') /\
    lookup_path ["out"; "test"; "Song A"; "vocals.wav"] fs'
      = Some (File [1; 2; 3] (Some (NInt 44100))) /\
    save_estimates ex_db [("vocals", [1; 2; 3])] track ["out"] false fs'
      = Ok (tt, fs').
Proof.
  intros track.
  destruct (save_estimates_writes_wav_files ex_db [("vocals", [1; 2; 3])]
              track ["out"] (Dir []))
    as (fs' & Hrun & _ & Hfile & Hagain).
  - unfold keys. simpl. repeat constructor. apply not_elem_of_nil.
  - reflexivity.
  - intros target es _. done.
  - exists fs'. split; [exact Hrun|]. split; [|exact Hagain].
    apply (Hfile "vocals" [1; 2; 3]). left.
Defined.


(** * Further properties of the code *)

(** ** The order of [sorted] *)

Lemma str_le_cons c1 s1 c2 s2 :
  str_le (String c1 s1) (String c2 s2) <->
  (Ascii.N_of_ascii c1 < Ascii.N_of_ascii c2)%N \/ (c1 = c2 /\ str_le s1 s2).
Proof.
  unfold str_le, String.leb. simpl. unfold Ascii.compare.
  destruct (N.compare_spec (Ascii.N_of_ascii c1) (Ascii.N_of_ascii c2))
    as [E|L|G].
  - assert (c1 = c2) as ->.
    { by rewrite <- (Ascii.ascii_N_embedding c1), E, Ascii.ascii_N_embedding. }
    split; [by right|]. intros [L|[_ H]]; [lia|done].
  - split; [by left|done].
  - split; [done|]. intros [L|[-> _]]; lia.
Qed.

#[local] Instance str_le_refl : Reflexive str_le.
Proof.
  intros s. induction s as [|c s IH]; [done|].
  apply str_le_cons. by right.
Qed.

#[local] Instance str_le_trans : Transitive str_le.
Proof.
  intros s1. induction s1 as [|c1 s1 IH]; intros [|c2 s2] [|c3 s3]; try done.
  rewrite !str_le_cons. intros [L1|[-> H1]] [L2|[-> H2]].
  - left. lia.
  - by left.
  - by left.
  - right. split; [done|]. by eapply IH.
Qed.

#[local] Instance str_le_total : Total str_le.
Proof. intros a b. apply String.leb_total. Qed.

#[local] Instance str_le_antisym : AntiSymm (=) str_le.
Proof. intros a b. apply String.leb_antisym. Qed.

Lemma elem_of_sorted x l : x ∈ sorted l <-> x ∈ l.
Proof. unfold sorted. by rewrite merge_sort_Permutation. Qed.

Lemma sorted_StronglySorted l : StronglySorted str_le (sorted l).
Proof. apply StronglySorted_merge_sort; apply _. Qed.

(** [sorted] does not depend on the order of its input. *)
Lemma sorted_Permutation l1 l2 : l1 ≡ₚ l2 -> sorted l1 = sorted l2.
Proof.
  intros HP. apply (StronglySorted_unique str_le);
    try apply sorted_StronglySorted.
  unfold sorted. by rewrite !merge_sort_Permutation.
Qed.

(** ** The walk of a two-level tree *)

Lemma walk_Dir top es :
  walk top (Dir es) =
  (top, dirnames es, filenames es)
    :: flat_map (fun e => walk (op_join top [e.1]) e.2) es.
Proof.
  simpl. f_equal. induction es as [|[c ch] es IH]; simpl; [done|].
  by rewrite IH.
Qed.

Lemma flat_map_nil {A B} (f : A -> list B) (l : list A) :
  (forall x, x ∈ l -> f x = []) -> flat_map f l = [].
Proof.
  induction l as [|x l IH]; intros H; simpl; [done|].
  rewrite (H x) by left. apply IH. intros; apply H; by right.
Qed.

Lemma flat_map_ext_elem {A B} (f g : A -> list B) (l : list A) :
  (forall x, x ∈ l -> f x = g x) -> flat_map f l = flat_map g l.
Proof.
  induction l as [|x l IH]; intros H; simpl; [done|].
  rewrite (H x) by left. f_equal. apply IH. intros; apply H; by right.
Qed.

Lemma fmap_flat_map {A B C} (g : B -> C) (f : A -> list B) (l : list A) :
  g <$> flat_map f l = flat_map (fun x => g <$> f x) l.
Proof.
  induction l as [|x l IH]; simpl; [done|]. by rewrite fmap_app, IH.
Qed.

Lemma elem_of_dirnames n es :
  n ∈ dirnames es <-> exists vs, (n, Dir vs) ∈ es.
Proof.
  unfold dirnames. rewrite list_elem_of_fmap. split.
  - intros ([n' ch] & -> & [Hd Hin]%list_elem_of_filter). simpl in *.
    destruct ch as [|vs]; [done|]. by exists vs.
  - intros (vs & Hin). exists (n, Dir vs). split; [done|].
    by apply list_elem_of_filter.
Qed.

Lemma dirnames_nil es c ws : dirnames es = [] -> (c, Dir ws) ∉ es.
Proof.
  intros Hnil Hin. assert (c ∈ dirnames es) as H.
  { apply elem_of_dirnames. by exists ws. }
  rewrite Hnil in H. by apply elem_of_nil in H.
Qed.

(** The folder lists that a walk reports, each sorted, in walk order. *)
Lemma walk_folders_flat top vs :
  (forall v ws, (v, Dir ws) ∈ vs -> dirnames ws = []) ->
  flat_map (fun '(_, folders, _) => sorted folders) (walk top (Dir vs))
  = sorted (dirnames vs).
Proof.
  intros Hflat. rewrite walk_Dir. simpl.
  rewrite (flat_map_nil _ (flat_map _ vs)); [by rewrite app_nil_r|].
  intros [[p folders] files] ([v ch] & Hin & Hw)%elem_of_flat_map.
  simpl in Hw. destruct ch as [|ws]; [by apply elem_of_nil in Hw|].
  pose proof (Hflat v ws Hin) as Hws.
  rewrite walk_Dir, Hws in Hw.
  apply elem_of_cons in Hw as [[= _ -> _]|Hw]; [done|].
  apply elem_of_flat_map in Hw as ([c' ch'] & Hin' & Hw'). simpl in Hw'.
  destruct ch' as [|ws']; [by apply elem_of_nil in Hw'|].
  by destruct (dirnames_nil ws c' ws' Hws).
Qed.

Lemma dict_get_dirnames n es :
  NoDup es.*1 -> n ∈ dirnames es -> exists vs, dict_get n es = Some (Dir vs).
Proof.
  intros Hnd (vs & Hin)%elem_of_dirnames. exists vs.
  by apply dict_get_NoDup.
Qed.

Lemma dict_get_not_dirname v es :
  v ∉ dirnames es -> forall ws, dict_get v es ≠ Some (Dir ws).
Proof.
  intros Hv ws Hget%dict_get_Some_elem. apply Hv.
  apply elem_of_dirnames. by exists ws.
Qed.

Section two_level_tree.
Context (self : DB.t) (fs : node) (subset : string)
        (es : list (string * node)).
Let root := op_join (op_join (DB.data_path self) [subset])
                    [DB.instrument self].
Hypothesis Hroot : lookup_path root fs = Some (Dir es).
Hypothesis Hlevels : two_level es.

Lemma track_folder_lookup n :
  lookup_path (track_folder_of self subset n) fs = dict_get n es.
Proof using Hroot.
  unfold track_folder_of, op_join.
  change [DB.instrument self; n] with ([DB.instrument self] ++ [n]).
  rewrite app_assoc, lookup_path_app. fold (op_join (DB.data_path self) [subset]).
  fold (op_join (op_join (DB.data_path self) [subset]) [DB.instrument self]).
  fold root. rewrite Hroot. simpl. by destruct (dict_get n es).
Qed.

(** Below a track folder the variants are its sub-folders, sorted. *)
Lemma variants_two_level n :
  n ∈ dirnames es ->
  variants fs (track_folder_of self subset n) = sorted (subdirs_of es n).
Proof using Hroot Hlevels.
  intros Hn. destruct Hlevels as [Hnd Hvar].
  destruct (dict_get_dirnames n es Hnd Hn) as (vs & Hget).
  unfold variants, os_walk, subdirs_of. rewrite track_folder_lookup, Hget.
  apply walk_folders_flat. intros v ws Hin.
  by apply (Hvar n vs v ws); [apply dict_get_Some_elem|].
Qed.

(** A variant name is not the folder of a track. *)
Lemma variants_of_variant v :
  v ∉ dirnames es -> variants fs (track_folder_of self subset v) = [].
Proof using Hroot.
  intros Hv. unfold variants, os_walk. rewrite track_folder_lookup.
  destruct (dict_get v es) as [[|ws]|] eqn:Hget; try done.
  by destruct (dict_get_not_dirname v es Hv ws).
Qed.

Lemma candidates_two_level :
  candidates self fs subset =
  sorted (dirnames es)
  ++ flat_map (fun e => match e.2 with
                        | Dir vs => sorted (dirnames vs)
                        | File _ _ => []
                        end) es.
Proof using Hroot Hlevels.
  unfold candidates, os_walk. fold root. rewrite Hroot, walk_Dir. simpl.
  f_equal. induction es as [|[n ch] es' IH] in Hlevels |- *; simpl; [done|].
  rewrite flat_map_app. f_equal.
  - destruct ch as [|vs]; [done|]. apply walk_folders_flat.
    intros v ws Hin. destruct Hlevels as [_ Hvar].
    by apply (Hvar n vs v ws); [left|].
  - apply IH. destruct Hlevels as [Hnd Hvar]. split.
    + rewrite fmap_cons in Hnd. by apply NoDup_cons in Hnd as [_ ?].
    + intros n' vs v ws Hn' Hv.
      destruct (Hvar n' vs v ws) as [H1 H2]; [by right|done|].
      split; [done|]. intros Hd. apply H2.
      apply elem_of_dirnames in Hd as (ws' & Hd).
      apply elem_of_dirnames. exists ws'. by right.
Qed.

(** The tracks reached in a two-level tree: the track folders in sorted
    order, those that the split keeps, and for each its variant folders in
    sorted order. *)
Lemma subset_keys_two_level split :
  DB.is_wav self = true ->
  subset_keys self fs split subset =
  flat_map (fun n =>
              if split_skips self subset split n then []
              else (fun v => (subset, n, v)) <$> sorted (subdirs_of es n))
           (sorted (dirnames es)).
Proof using Hroot Hlevels.
  intros Hwav. unfold subset_keys. rewrite Hwav, candidates_two_level.
  rewrite flat_map_app.
  rewrite (flat_map_nil _ (flat_map _ es)).
  - rewrite app_nil_r. apply flat_map_ext_elem.
    intros n Hn. rewrite elem_of_sorted in Hn. unfold name_keys.
    rewrite variants_two_level; [reflexivity|exact Hn].
  - intros v ([n ch] & Hin & Hv)%elem_of_flat_map. simpl in Hv.
    destruct ch as [|vs]; [by apply elem_of_nil in Hv|].
    rewrite elem_of_sorted in Hv. apply elem_of_dirnames in Hv as (ws & Hv).
    destruct Hlevels as [_ Hvar].
    destruct (Hvar n vs v ws Hin Hv) as [_ Hno].
    unfold name_keys. rewrite variants_of_variant by done.
    by destruct (split_skips _ _ _ _).
Qed.
End two_level_tree.

(** ** The catalog of a two-level tree *)

Lemma Forall2_fmap_eq {A B C} (f : A -> C) (g : B -> C) l1 l2 :
  Forall2 (fun a b => f a = g b) l1 l2 -> f <$> l1 = g <$> l2.
Proof.
  induction 1 as [|a b l1 l2 Hab _ IH]; [done|].
  rewrite !fmap_cons. by f_equal.
Qed.

(** Subset, name and path of the tracks of a returned catalog, read off the
    reached keys (lines 183-190). *)
Lemma load_mus_tracks_entries self fs subsets split h tracks h' :
  load_mus_tracks self fs subsets split h = Ok (tracks, h') ->
  (fun t => (MultiTrack.subset t, MultiTrack.name t, MultiTrack.path t))
    <$> tracks
  = (fun k : track_key =>
       (k.1.1, k.1.2,
        op_join (track_folder_of self k.1.1 k.1.2)
                [k.2; Setup.mixture (DB.setup self)]))
      <$> track_keys self fs subsets split.
Proof.
  intros Hl. apply Forall2_fmap_eq. revert Hl.
  apply load_mus_tracks_catalog.
  intros k tracks0 h0 tracks1 h1 t Hk ->. unfold add_track_key in Hk.
  apply add_track_ok in Hk
    as (t' & <-%app_inj_tail_iff%proj2 & -> & -> & -> & _).
  done.
Qed.

(** X2: in the per-file layout (track folders holding variant folders that
    hold only files, no variant named like a track folder), the catalog of
    one subset lists, for the track folders in sorted order that the split
    keeps and for each their variant folders in sorted order, one track
    whose path is [track_folder/variant/mixture]; a track folder without
    variant folder contributes nothing. *)
Theorem two_level_catalog self fs subset split h tracks h' es :
  lookup_path (op_join (op_join (DB.data_path self) [subset])
                       [DB.instrument self]) fs = Some (Dir es) ->
  two_level es ->
  DB.is_wav self = true ->
  load_mus_tracks self fs (Some (Str subset)) split h = Ok (tracks, h') ->
  (fun t => (MultiTrack.subset t, MultiTrack.name t, MultiTrack.path t))
    <$> tracks
  = flat_map
      (fun n =>
         if split_skips self subset split n then []
         else (fun v => (subset, n,
                         op_join (track_folder_of self subset n)
                                 [v; Setup.mixture (DB.setup self)]))
                <$> sorted (subdirs_of es n))
      (sorted (dirnames es)).
Proof.
  intros Hroot Hlevels Hwav Hl.
  rewrite (load_mus_tracks_entries _ _ _ _ _ _ _ Hl).
  unfold track_keys. simpl. rewrite app_nil_r.
  rewrite (subset_keys_two_level self fs subset es Hroot Hlevels split Hwav).
  rewrite fmap_flat_map. apply flat_map_ext_elem. intros n _.
  destruct (split_skips self subset split n); [done|].
  by rewrite <- list_fmap_compose.
Qed.

Lemma two_level_ex_train :
  two_level [("Song B", Dir [("0", Dir [("mixture.wav", wav);
                                         ("drums.wav", wav)])]);
             ("Song A", Dir [("1", Dir [("mixture.wav", wav);
                                         ("bass.wav", wav)]);
                             ("0", Dir [("mixture.wav", wav);
                                         ("drums.wav", wav);
                                         ("bass.wav", wav)])])].
Proof.
  split.
  - simpl. repeat constructor; rewrite ?not_elem_of_cons;
      repeat split; try discriminate; apply not_elem_of_nil.
  - intros n vs v ws Hn Hv.
    repeat (apply elem_of_cons in Hn as [[= -> ->]|Hn];
            [repeat (apply elem_of_cons in Hv as [[= -> ->]|Hv];
                     [split; [reflexivity|];
                      cbv [dirnames filter list_filter fmap list_fmap is_dir];
                      simpl; rewrite ?not_elem_of_cons;
                      repeat split; try discriminate; apply not_elem_of_nil|]);
             by apply elem_of_nil in Hv|]).
    by apply elem_of_nil in Hn.
Qed.

Lemma two_level_catalog_witness :
  exists tracks h',
    load_mus_tracks ex_db ex_fs (Some (Str "train")) None [] = Ok (tracks, h') /\
    (fun t => (MultiTrack.subset t, MultiTrack.name t, MultiTrack.path t))
      <$> tracks
    = [("train", "Song A",
        ["data"; "train"; "drums"; "Song A"; "0"; "mixture.wav"]);
       ("train", "Song A",
        ["data"; "train"; "drums"; "Song A"; "1"; "mixture.wav"]);
       ("train", "Song B",
        ["data"; "train"; "drums"; "Song B"; "0"; "mixture.wav"])].
Proof.
  destruct (load_mus_tracks ex_db ex_fs (Some (Str "train")) None [])
    as [[tracks h']|] eqn:Hl; [|by vm_compute in Hl].
  exists tracks, h'. split; [reflexivity|].
  rewrite (two_level_catalog ex_db ex_fs "train" None [] tracks h' _
             eq_refl two_level_ex_train eq_refl Hl).
  reflexivity.
Defined.

Lemma StronglySorted_const (x : string) (l : list string) :
  Forall (eq x) l -> StronglySorted str_le l.
Proof.
  induction 1 as [|y l <- Hall IH]; constructor; [done|].
  eapply Forall_impl; [exact Hall|]. by intros z <-.
Qed.

Lemma StronglySorted_copies (f : string -> list string) (l : list string) :
  (forall x y, y ∈ f x -> y = x) ->
  StronglySorted str_le l -> StronglySorted str_le (flat_map f l).
Proof.
  intros Hf. induction 1 as [|x l Hl IH Hx]; simpl; [constructor|].
  apply StronglySorted_app_2.
  - intros y z Hy (x' & Hx' & Hz)%elem_of_flat_map.
    rewrite (Hf _ _ Hy), (Hf _ _ Hz).
    rewrite Forall_forall in Hx. by apply Hx.
  - apply (StronglySorted_const x).
    apply Forall_forall. intros y Hy. symmetry. by apply Hf.
  - done.
Qed.

(** X3: in the per-file layout the names of a subset's catalog are in
    code-point order (each name once per variant), however the directory
    lists its entries. *)
Theorem two_level_catalog_sorted self fs subset split h tracks h' es :
  lookup_path (op_join (op_join (DB.data_path self) [subset])
                       [DB.instrument self]) fs = Some (Dir es) ->
  two_level es ->
  load_mus_tracks self fs (Some (Str subset)) split h = Ok (tracks, h') ->
  StronglySorted str_le (MultiTrack.name <$> tracks).
Proof.
  intros Hroot Hlevels Hl.
  destruct (DB.is_wav self) eqn:Hwav.
  2:{ destruct (decide (split_misused (Some (Str subset)) split)) as [Hbad|Hok].
      { rewrite load_mus_tracks_eq in Hl. by rewrite decide_True in Hl. }
      rewrite load_mus_tracks_flat, track_keys_not_wav in Hl by done.
      injection Hl as <- _. constructor. }
  rewrite (load_mus_tracks_names _ _ _ _ _ _ _ Hl).
  unfold track_keys. simpl. rewrite app_nil_r.
  rewrite (subset_keys_two_level self fs subset es Hroot Hlevels split Hwav).
  rewrite fmap_flat_map.
  apply StronglySorted_copies; [|apply sorted_StronglySorted].
  intros n y. destruct (split_skips self subset split n);
    [by intros ?%elem_of_nil|].
  rewrite <- list_fmap_compose.
  by intros (v & -> & _)%list_elem_of_fmap.
Qed.

Lemma two_level_catalog_sorted_witness :
  exists tracks h',
    load_mus_tracks ex_db ex_fs (Some (Str "train")) None [] = Ok (tracks, h') /\
    StronglySorted str_le (MultiTrack.name <$> tracks).
Proof.
  destruct (load_mus_tracks ex_db ex_fs (Some (Str "train")) None [])
    as [[tracks h']|] eqn:Hl; [|by vm_compute in Hl].
  exists tracks, h'. split; [reflexivity|].
  exact (two_level_catalog_sorted ex_db ex_fs "train" None [] tracks h' _
           eq_refl two_level_ex_train Hl).
Defined.

(** ** Independence from the order of directory listings *)

Lemma add_track_key_ext self fs fs' k tracks h :
  (forall p, os_path_exists fs p = os_path_exists fs' p) ->
  add_track_key self fs k tracks h = add_track_key self fs' k tracks h.
Proof.
  intros Hex. unfold add_track_key, add_track, bind.
  destruct (getitem _ _ h) as [[sid h1]|]; [|done].
  destruct (getattr_sample_rate self h1) as [[sr h2]|]; [|done].
  rewrite (for_ext _ (add_source self fs (track_folder_of self k.1.1 k.1.2) k.2)
             (add_source self fs' (track_folder_of self k.1.1 k.1.2) k.2));
    [done|].
  intros [src file] sources h3 _. unfold add_source. by rewrite Hex.
Qed.

(** X4: two trees in the per-file layout with the same existing paths, whose
    instrument folder and track folders list the same sub-folders in any
    order, are indexed alike: same catalog, same store, same outcome. *)
Theorem listing_order_irrelevant self fs fs' subset split h es es' :
  lookup_path (op_join (op_join (DB.data_path self) [subset])
                       [DB.instrument self]) fs = Some (Dir es) ->
  lookup_path (op_join (op_join (DB.data_path self) [subset])
                       [DB.instrument self]) fs' = Some (Dir es') ->
  two_level es -> two_level es' ->
  dirnames es ≡ₚ dirnames es' ->
  (forall n, subdirs_of es n ≡ₚ subdirs_of es' n) ->
  (forall p, os_path_exists fs p = os_path_exists fs' p) ->
  load_mus_tracks self fs (Some (Str subset)) split h
  = load_mus_tracks self fs' (Some (Str subset)) split h.
Proof.
  intros Hroot Hroot' Hlv Hlv' Hdirs Hsub Hex.
  destruct (decide (split_misused (Some (Str subset)) split)) as [Hbad|Hok].
  { rewrite !load_mus_tracks_eq. by rewrite !decide_True. }
  rewrite !load_mus_tracks_flat by done.
  assert (track_keys self fs (Some (Str subset)) split
          = track_keys self fs' (Some (Str subset)) split) as ->.
  { unfold track_keys. simpl. f_equal.
    destruct (DB.is_wav self) eqn:Hwav.
    - rewrite (subset_keys_two_level self fs subset es Hroot Hlv split Hwav).
      rewrite (subset_keys_two_level self fs' subset es' Hroot' Hlv' split Hwav).
      rewrite (sorted_Permutation _ _ Hdirs).
      apply flat_map_ext_elem. intros n _.
      by rewrite (sorted_Permutation _ _ (Hsub n)).
    - unfold subset_keys. by rewrite Hwav. }
  apply for_ext. intros k tracks h0 _. by apply add_track_key_ext.
Qed.

(** Case analysis on a path through two concrete trees. *)
Ltac same_paths p :=
  try reflexivity;
  let c := fresh "c" in
  destruct p as [|c p]; simpl; try reflexivity;
  repeat (match goal with
          | |- context [String.eqb c ?b] =>
              destruct (String.eqb_spec c b) as [-> |?]; simpl
          end; try reflexivity);
  try (progress same_paths p).

Ltac solve_two_level :=
  split;
  [ simpl; repeat constructor; rewrite ?not_elem_of_cons;
    repeat split; try discriminate; apply not_elem_of_nil
  | let Hn := fresh "Hn" in
    let Hv := fresh "Hv" in
    intros ? ? ? ? Hn Hv;
    repeat (apply elem_of_cons in Hn as [[= -> ->]|Hn];
            [repeat (apply elem_of_cons in Hv as [[= -> ->]|Hv];
                     [split; [reflexivity|];
                      cbv [dirnames filter list_filter fmap list_fmap is_dir];
                      simpl; rewrite ?not_elem_of_cons;
                      repeat split; try discriminate; apply not_elem_of_nil|]);
             by apply elem_of_nil in Hv|]);
    by apply elem_of_nil in Hn ].

Lemma listing_order_irrelevant_witness :
  load_mus_tracks ex_db ex_fs (Some (Str "train")) (Some "train") []
  = load_mus_tracks ex_db ex_fs_relisted (Some (Str "train")) (Some "train") [].
Proof.
  eapply (listing_order_irrelevant ex_db ex_fs ex_fs_relisted "train").
  - reflexivity.
  - reflexivity.
  - solve_two_level.
  - solve_two_level.
  - apply perm_swap.
  - intros n. unfold subdirs_of. simpl.
    destruct (String.eqb_spec n "Song B") as [-> |?]; simpl; [reflexivity|].
    destruct (String.eqb_spec n "Song A") as [-> |?]; simpl; [|reflexivity].
    apply perm_swap.
  - intros p. unfold os_path_exists. same_paths p.
Defined.

(** ** The fields of the tracks of a catalog *)

Lemma elem_of_track_keys self fs subsets split k :
  k ∈ track_keys self fs subsets split ->
  DB.is_wav self = true /\ k.1.1 ∈ normalize_subsets subsets /\
  split_skips self k.1.1 split k.1.2 = false.
Proof.
  unfold track_keys. intros (subset & Hsub & Hk)%elem_of_flat_map.
  unfold subset_keys in Hk. destruct (DB.is_wav self);
    [|by apply elem_of_nil in Hk].
  apply elem_of_flat_map in Hk as (n & _ & Hk). unfold name_keys in Hk.
  destruct (split_skips self subset split n) eqn:Hs;
    [by apply elem_of_nil in Hk|].
  by apply list_elem_of_fmap in Hk as (v & -> & _).
Qed.

Lemma add_track_fields self fs subset name tf fnum tracks h tracks' h' :
  add_track self fs subset name tf fnum tracks h = Ok (tracks', h') ->
  exists t,
    tracks' = tracks ++ [t] /\
    MultiTrack.subset t = subset /\ MultiTrack.name t = name /\
    MultiTrack.is_wav t = DB.is_wav self /\
    dict_get "mixture" (Setup.stem_ids (DB.setup self))
      = Some (MultiTrack.stem_id t) /\
    DB.sample_rate self = Some (MultiTrack.sample_rate t) /\
    last (MultiTrack.path t) = Some (Setup.mixture (DB.setup self)).
Proof.
  unfold add_track, bind.
  rewrite getitem_eq. destruct (dict_get _ _) as [sid|]; [|done].
  rewrite getattr_sample_rate_eq. destruct (DB.sample_rate self); [|done].
  destruct (for_ _ _ _ _) as [[sources h1]|]; [|done].
  rewrite create_targets_eq.
  destruct (gains_overflow _ _) eqn:Hov; [done|]. intros [= <- <-].
  eexists. split; [done|]. simpl. repeat split; try done.
  unfold op_join.
  change [fnum; Setup.mixture (DB.setup self)]
    with ([fnum] ++ [Setup.mixture (DB.setup self)]).
  by rewrite app_assoc, last_snoc.
Qed.

Lemma Forall2_elem_of_l {A B} (R : A -> B -> Prop) l1 l2 x :
  Forall2 R l1 l2 -> x ∈ l1 -> exists y, y ∈ l2 /\ R x y.
Proof.
  induction 1 as [|a b l1 l2 Hab _ IH]; [by intros ?%elem_of_nil|].
  intros [-> |Hx]%elem_of_cons.
  - exists b. split; [left|done].
  - destruct (IH Hx) as (y & Hy & HR). exists y. split; [by right|done].
Qed.

(** X5: every track of a returned catalog was built in the per-file branch
    ([is_wav] is set on the object and on the track), belongs to one of the
    requested subsets, has a name that the split filter keeps, carries the
    stem id that the configuration gives the mixture and the object's
    sample rate, and its path ends with the configured mixture file name. *)
Theorem catalog_track_fields self fs subsets split h tracks h' t :
  load_mus_tracks self fs subsets split h = Ok (tracks, h') ->
  t ∈ tracks ->
  DB.is_wav self = true /\ MultiTrack.is_wav t = true /\
  MultiTrack.subset t ∈ normalize_subsets subsets /\
  split_skips self (MultiTrack.subset t) split (MultiTrack.name t) = false /\
  dict_get "mixture" (Setup.stem_ids (DB.setup self))
    = Some (MultiTrack.stem_id t) /\
  DB.sample_rate self = Some (MultiTrack.sample_rate t) /\
  last (MultiTrack.path t) = Some (Setup.mixture (DB.setup self)).
Proof.
  intros Hl Ht.
  assert (Forall2
            (fun t (k : track_key) =>
               MultiTrack.subset t = k.1.1 /\ MultiTrack.name t = k.1.2 /\
               MultiTrack.is_wav t = DB.is_wav self /\
               dict_get "mixture" (Setup.stem_ids (DB.setup self))
                 = Some (MultiTrack.stem_id t) /\
               DB.sample_rate self = Some (MultiTrack.sample_rate t) /\
               last (MultiTrack.path t) = Some (Setup.mixture (DB.setup self)))
            tracks (track_keys self fs subsets split)) as HF.
  { revert Hl. apply load_mus_tracks_catalog.
    intros k tracks0 h0 tracks1 h1 t0 Hk ->. unfold add_track_key in Hk.
    by apply add_track_fields in Hk
      as (t' & <-%app_inj_tail_iff%proj2 & H). }
  destruct (Forall2_elem_of_l _ _ _ _ HF Ht)
    as (k & Hk & Hsub & Hname & Hwav & Hsid & Hsr & Hpath).
  apply elem_of_track_keys in Hk as (Hw & Hin & Hskip).
  rewrite Hsub, Hname, Hwav. done.
Qed.

Lemma catalog_track_fields_witness :
  exists tracks h' t,
    load_mus_tracks ex_db ex_fs (Some (Str "train")) (Some "valid") []
      = Ok (tracks, h') /\
    t ∈ tracks /\ MultiTrack.name t = "Song B" /\
    MultiTrack.is_wav t = true /\ MultiTrack.stem_id t = 0 /\
    MultiTrack.sample_rate t = None.
Proof.
  destruct (load_mus_tracks ex_db ex_fs (Some (Str "train")) (Some "valid") [])
    as [[[|t tracks] h']|] eqn:Hl; try by vm_compute in Hl.
  exists (t :: tracks), h', t. split; [reflexivity|].
  assert (t ∈ t :: tracks) as Ht by left. split; [exact Ht|].
  destruct (catalog_track_fields ex_db ex_fs (Some (Str "train"))
              (Some "valid") [] (t :: tracks) h' t Hl Ht)
    as (_ & Hw & _ & _ & Hsid & Hsr & _).
  vm_compute in Hl. injection Hl as <- _ _.
  repeat split; try reflexivity.
Defined.

(** ** The store of [Source] objects after indexing *)

Lemma add_source_cell self fs tf fnum src file sources h sources' h' :
  add_source self fs tf fnum (src, file) sources h = Ok (sources', h') ->
  (exists s, source_cell self tf fnum src file s /\
             Source.gain s = 1%float /\
             sources' = dict_set src (length h) sources /\ h' = h ++ [s]) \/
  (sources' = sources /\ h' = h).
Proof.
  unfold add_source, bind.
  destruct (os_path_exists _ _); [|intros [= <- <-]; by right].
  rewrite getitem_eq. destruct (dict_get _ _) as [sid|] eqn:Hsid; [|done].
  rewrite getattr_sample_rate_eq.
  destruct (DB.sample_rate self) as [sr|] eqn:Hsr; [|done].
  unfold new_Source, ret. intros [= <- <-]. left.
  eexists. split; [|split; [|split; [reflexivity|reflexivity]]];
    [by repeat split|reflexivity].
Qed.

(** The cells of the sources that the loop of lines 198-214 has added. *)
Lemma sources_loop_cells self fs tf fnum h sources h' :
  for_ (Setup.sources (DB.setup self)) (add_source self fs tf fnum) [] h
    = Ok (sources, h') ->
  (length h <= length h')%nat /\
  (forall a, (a < length h)%nat -> h' !! a = h !! a) /\
  forall src a,
    dict_get src sources = Some a ->
    (length h <= a)%nat /\
    exists s file,
      h' !! a = Some s /\ (src, file) ∈ Setup.sources (DB.setup self) /\
      source_cell self tf fnum src file s /\ Source.gain s = 1%float.
Proof.
  apply (for_inv (fun done sources h' =>
    (length h <= length h')%nat /\
    (forall a, (a < length h)%nat -> h' !! a = h !! a) /\
    forall src a,
      dict_get src sources = Some a ->
      (length h <= a)%nat /\
      exists s file,
        h' !! a = Some s /\ (src, file) ∈ done /\
        source_cell self tf fnum src file s /\ Source.gain s = 1%float)).
  - split; [done|]. split; [done|]. done.
  - intros done [src file] s1 h1 s2 h2 _ (Hlen & Hold & Hcells) Hstep.
    apply add_source_cell in Hstep
      as [(s & Hs & Hg & -> & ->)|[-> ->]].
    + split; [rewrite length_app; lia|]. split.
      * intros a Ha. rewrite lookup_app_l by lia. by apply Hold.
      * intros src' a. rewrite dict_get_set.
        destruct (String.eqb_spec src' src) as [-> |Hne].
        -- intros [= <-]. split; [done|]. exists s, file.
           rewrite lookup_app_r, Nat.sub_diag by done.
           split; [done|]. split; [|done]. apply elem_of_app. right. left.
        -- intros Hget. destruct (Hcells _ _ Hget)
             as (Hle & s' & file' & Hl & Hin & Hc & Hg').
           split; [done|]. exists s', file'.
           rewrite lookup_app_l by (by eapply lookup_lt_Some).
           split; [done|]. split; [|done]. apply elem_of_app. by left.
    + split; [done|]. split; [done|]. intros src' a Hget.
      destruct (Hcells _ _ Hget) as (Hle & s' & file' & Hl & Hin & Hc & Hg').
      split; [done|]. exists s', file'.
      split; [done|]. split; [|done]. apply elem_of_app. by left.
Qed.

Lemma gain_step_same sources (h : heap) it a s :
  h !! a = Some s ->
  exists s', gain_step sources h it !! a = Some s' /\ same_but_gain s s'.
Proof.
  intros Ha. unfold gain_step.
  destruct (dict_get it.1 sources) as [a'|]; [|by exists s].
  destruct (py_float it.2) as [g|]; [|by exists s].
  destruct (decide (a' = a)) as [-> |Hne].
  - rewrite list_lookup_alter_eq, Ha. by eexists.
  - rewrite list_lookup_alter_ne by done. by exists s.
Qed.

Lemma same_but_gain_trans s1 s2 s3 :
  same_but_gain s1 s2 -> same_but_gain s2 s3 -> same_but_gain s1 s3.
Proof. unfold same_but_gain. intros (?&?&?&?) (?&?&?&?). by repeat split; etrans. Qed.

Lemma gains_fold_same sources (l : dict number) (h : heap) a s :
  h !! a = Some s ->
  exists s', foldl (gain_step sources) h l !! a = Some s' /\ same_but_gain s s'.
Proof.
  revert h s. induction l as [|it l IH]; intros h s Ha; simpl; [by exists s|].
  destruct (gain_step_same sources h it a s Ha) as (s1 & H1 & Hs1).
  destruct (IH _ _ H1) as (s2 & H2 & Hs2).
  exists s2. split; [done|]. by eapply same_but_gain_trans.
Qed.

(** [create_targets] changes nothing but gains. *)
Lemma gains_all_same sources (l : dict (dict number)) (h : heap) a s :
  h !! a = Some s ->
  exists s',
    foldl (fun h it => foldl (gain_step sources) h it.2) h l !! a = Some s' /\
    same_but_gain s s'.
Proof.
  revert h s. induction l as [|it l IH]; intros h s Ha; simpl; [by exists s|].
  destruct (gains_fold_same sources it.2 h a s Ha) as (s1 & H1 & Hs1).
  destruct (IH _ _ H1) as (s2 & H2 & Hs2).
  exists s2. split; [done|]. by eapply same_but_gain_trans.
Qed.

(** The gain of a referenced source after all targets are composed. *)
Lemma gains_all_final sources (targets : dict (dict number)) (h : heap)
    src a s :
  distinct_refs sources -> dict_get src sources = Some a ->
  h !! a = Some s -> Source.gain s = 1%float ->
  gains_convert (keys sources) targets ->
  exists s',
    foldl (fun h it => foldl (gain_step sources) h it.2) h targets !! a
      = Some s' /\
    final_gain targets src (Source.gain s').
Proof.
  intros Hd Hget Ha Hg Hconv.
  destruct (gains_all_same sources targets h a s Ha) as (s' & Hs' & _).
  exists s'. split; [done|]. split.
  - intros pre name spec post x -> Hnd Hin Hpost.
    destruct (Hconv name spec src x) as [y Hy]; [|done| |].
    { apply elem_of_app. right. left. }
    { apply dict_get_is_Some. by exists a. }
    rewrite foldl_app in Hs'. simpl in Hs'.
    rewrite gains_all_other in Hs'.
    + pose proof (gains_fold_declared sources spec
                    (foldl (fun h it => foldl (gain_step sources) h it.2) h pre)
                    src x y a Hnd Hd Hin Hy Hget) as Hdecl.
      rewrite Hs' in Hdecl. simpl in Hdecl.
      assert (Some (Source.gain s') = Some y) as [= ->]; [|done].
      apply Hdecl. rewrite gains_all_length. by eapply lookup_lt_Some.
    + intros it [s0 g'] Hit Hp Hs0. simpl in Hs0.
      assert (s0 = src) as -> by (by eapply Hd).
      apply (Hpost it Hit). apply list_elem_of_fmap. by exists (src, g').
  - intros Hnone. rewrite gains_all_other, Ha in Hs'.
    + by injection Hs' as <-.
    + intros it [s0 g'] Hit Hp Hs0. simpl in Hs0.
      assert (s0 = src) as -> by (by eapply Hd).
      apply (Hnone it Hit). apply list_elem_of_fmap. by exists (src, g').
Qed.

Lemma source_cell_same self tf fnum src file s s' :
  same_but_gain s s' -> source_cell self tf fnum src file s ->
  source_cell self tf fnum src file s'.
Proof.
  unfold same_but_gain, source_cell.
  intros (<- & <- & <- & <-). done.
Qed.

(** One track: the cells below the old length stay, the track's sources are
    new cells with the configured attributes and their final gain. *)
Lemma add_track_cells self fs subset name tf fnum tracks h tracks' h' :
  add_track self fs subset name tf fnum tracks h = Ok (tracks', h') ->
  exists t,
    tracks' = tracks ++ [t] /\
    (length h <= length h')%nat /\
    (forall a, (a < length h)%nat -> h' !! a = h !! a) /\
    track_in_store self (length h) h' t.
Proof.
  unfold add_track, bind.
  rewrite getitem_eq. destruct (dict_get _ _) as [sid|]; [|done].
  rewrite getattr_sample_rate_eq. destruct (DB.sample_rate self); [|done].
  destruct (for_ _ _ _ _) as [[sources h1]|] eqn:Hs; [|done].
  rewrite create_targets_eq.
  destruct (gains_overflow _ _) eqn:Hov; [done|]. intros [= <- <-]. simpl.
  pose proof (sources_loop_ok _ _ _ _ _ _ _ Hs) as (_ & Hd & _).
  apply sources_loop_cells in Hs as (Hlen & Hold & Hcells).
  eexists. split; [done|]. rewrite gains_all_length.
  split; [done|]. split.
  - intros a Ha. rewrite gains_all_other; [by apply Hold|].
    intros it p _ _ Hget. apply Hcells in Hget as [Hle _]. lia.
  - exists tf, fnum. simpl. split; [done|]. split; [done|].
    intros src a Hget.
    destruct (Hcells _ _ Hget) as (Hle & s & file & Hl & Hin & Hc & Hg).
    split; [split; [done|rewrite gains_all_length; by eapply lookup_lt_Some]|].
    destruct (gains_all_final sources (Setup.targets (DB.setup self)) h1
                src a s Hd Hget Hl Hg) as (s' & Hl' & Hfinal);
      [by apply gains_overflow_false|].
    destruct (gains_all_same sources (Setup.targets (DB.setup self)) h1
                a s Hl) as (s'' & Hl'' & Hsame).
    pose proof (eq_trans (eq_sym Hl') Hl'') as [= <-].
    exists s', file. split; [done|]. split; [done|].
    split; [by eapply source_cell_same|done].
Qed.

Lemma track_in_store_mono self n (h h' : heap) t :
  (length h <= length h')%nat ->
  (forall a, (a < length h)%nat -> h' !! a = h !! a) ->
  track_in_store self n h t -> track_in_store self n h' t.
Proof.
  intros Hlen Hold (tf & fnum & Hp & Hd & Hcells).
  exists tf, fnum. split; [done|]. split; [done|].
  intros src a Hget. destruct (Hcells _ _ Hget) as ([Hle Hlt] & Hrest).
  split; [lia|]. by rewrite Hold.
Qed.

(** The whole traversal over the store. *)
Lemma load_mus_tracks_store self fs subsets split h tracks h' :
  load_mus_tracks self fs subsets split h = Ok (tracks, h') ->
  (length h <= length h')%nat /\
  (forall a, (a < length h)%nat -> h' !! a = h !! a) /\
  Forall (track_in_store self (length h) h') tracks /\
  no_shared_source tracks.
Proof.
  destruct (decide (split_misused subsets split)) as [Hbad|Hok].
  { rewrite load_mus_tracks_eq. by rewrite decide_True. }
  rewrite load_mus_tracks_flat by done.
  apply (for_inv (fun _ tracks h' =>
    (length h <= length h')%nat /\
    (forall a, (a < length h)%nat -> h' !! a = h !! a) /\
    Forall (track_in_store self (length h) h') tracks /\
    no_shared_source tracks)).
  - split; [done|]. split; [done|]. split; [constructor|].
    by intros i j t1 t2 s1 s2 a ?.
  - intros _ k s1 h1 s2 h2 _ (Hlen & Hold & Hall & Hno) Hk.
    unfold add_track_key in Hk.
    apply add_track_cells in Hk as (t & -> & Hlen' & Hold' & Ht).
    split; [lia|]. split; [|split].
    + intros a Ha. rewrite Hold' by lia. by apply Hold.
    + apply Forall_app. split.
      * eapply Forall_impl; [exact Hall|]. intros t0.
        by apply track_in_store_mono.
      * constructor; [|constructor].
        destruct Ht as (tf & fnum & Hp & Hd & Hcells).
        exists tf, fnum. split; [done|]. split; [done|].
        intros src a Hget. destruct (Hcells _ _ Hget) as ([??] & ?).
        split; [lia|done].
    + assert (forall i t0 s0 a,
                s1 !! i = Some t0 ->
                dict_get s0 (MultiTrack.sources t0) = Some a ->
                (a < length h1)%nat) as Hold_refs.
      { intros i t0 s0 a Hi Hget.
        rewrite Forall_forall in Hall.
        destruct (Hall t0) as (tf0 & fnum0 & _ & _ & Hc);
          [by eapply list_elem_of_lookup_2|].
        destruct (Hc _ _ Hget) as ([_ ?] & _). done. }
      assert (forall s0 a, dict_get s0 (MultiTrack.sources t) = Some a ->
                           (length h1 <= a)%nat) as Hnew_refs.
      { intros s0 a Hget. destruct Ht as (tf0 & fnum0 & _ & _ & Hc).
        destruct (Hc _ _ Hget) as ([? _] & _). done. }
      intros i j t1 t2 x1 x2 a Hi Hj H1 H2.
      apply lookup_app_Some in Hi as [Hi|[Hi Hi']];
        apply lookup_app_Some in Hj as [Hj|[Hj Hj']].
      * by eapply Hno.
      * apply list_lookup_singleton_Some in Hj' as [_ <-].
        pose proof (Hold_refs _ _ _ _ Hi H1). pose proof (Hnew_refs _ _ H2).
        lia.
      * apply list_lookup_singleton_Some in Hi' as [_ <-].
        pose proof (Hold_refs _ _ _ _ Hj H2). pose proof (Hnew_refs _ _ H1).
        lia.
      * apply list_lookup_singleton_Some in Hi' as [Hi' _].
        apply list_lookup_singleton_Some in Hj' as [Hj' _]. lia.
Qed.

(** X6: indexing only appends to the store of [Source] objects: the objects
    that existed before the call are left as they were, every source of a
    returned track is an object created during the call, and no object
    belongs to two tracks (each variant gets sources of its own). *)
Theorem indexing_appends_to_store self fs subsets split h tracks h' :
  load_mus_tracks self fs subsets split h = Ok (tracks, h') ->
  (length h <= length h')%nat /\
  (forall a, (a < length h)%nat -> h' !! a = h !! a) /\
  (forall t src a,
     t ∈ tracks -> dict_get src (MultiTrack.sources t) = Some a ->
     (length h <= a < length h')%nat) /\
  (forall i j t1 t2 s1 s2 a,
     tracks !! i = Some t1 -> tracks !! j = Some t2 ->
     dict_get s1 (MultiTrack.sources t1) = Some a ->
     dict_get s2 (MultiTrack.sources t2) = Some a ->
     i = j /\ s1 = s2).
Proof.
  intros (Hlen & Hold & Hall & Hno)%load_mus_tracks_store.
  split; [done|]. split; [done|]. rewrite Forall_forall in Hall. split.
  - intros t src a Ht Hget.
    destruct (Hall t Ht) as (tf & fnum & _ & _ & Hc).
    by destruct (Hc _ _ Hget) as [? _].
  - intros i j t1 t2 s1 s2 a Hi Hj H1 H2.
    pose proof (Hno _ _ _ _ _ _ _ Hi Hj H1 H2) as ->.
    split; [done|]. rewrite Hi in Hj. injection Hj as <-.
    destruct (Hall t1) as (tf & fnum & _ & Hd & _);
      [by eapply list_elem_of_lookup_2|].
    by eapply Hd.
Qed.

Lemma indexing_appends_to_store_witness :
  let old := {| Source.name := "kept"; Source.path := []; Source.stem_id := 7;
                Source.sample_rate := None; Source.gain := 0.25%float |} in
  exists tracks h',
    load_mus_tracks ex_db ex_fs None None [old] = Ok (tracks, h') /\
    h' !! 0%nat = Some old /\ length h' = 5%nat.
Proof.
  intros old.
  destruct (load_mus_tracks ex_db ex_fs None None [old])
    as [[tracks h']|] eqn:Hl; [|by vm_compute in Hl].
  exists tracks, h'. split; [reflexivity|].
  destruct (indexing_appends_to_store ex_db ex_fs None None [old] tracks h' Hl)
    as (_ & Hold & _).
  split; [apply (Hold 0%nat); simpl; lia|].
  vm_compute in Hl. by injection Hl as _ <-.
Defined.

(** X7: each source of a returned track is an object named by its key, whose
    file is the declared file next to the track's mixture file, with the
    stem id that the configuration gives its name and the object's sample
    rate. *)
Theorem indexed_source_attributes self fs subsets split h tracks h' t src a :
  load_mus_tracks self fs subsets split h = Ok (tracks, h') ->
  t ∈ tracks -> dict_get src (MultiTrack.sources t) = Some a ->
  exists s folder file,
    h' !! a = Some s /\
    (src, file) ∈ Setup.sources (DB.setup self) /\
    MultiTrack.path t = op_join folder [Setup.mixture (DB.setup self)] /\
    Source.name s = src /\
    Source.path s = op_join folder [file] /\
    dict_get src (Setup.stem_ids (DB.setup self)) = Some (Source.stem_id s) /\
    DB.sample_rate self = Some (Source.sample_rate s).
Proof.
  intros (_ & _ & Hall & _)%load_mus_tracks_store Ht Hget.
  rewrite Forall_forall in Hall.
  destruct (Hall t Ht) as (tf & fnum & Hp & _ & Hc).
  destruct (Hc _ _ Hget)
    as (_ & s & file & Hl & Hin & (Hn & Hsp & Hsid & Hsr) & _).
  exists s, (op_join tf [fnum]), file.
  split; [done|]. split; [done|]. unfold op_join in *.
  rewrite <- !app_assoc. done.
Qed.

Lemma indexed_source_attributes_witness :
  exists tracks h' t s,
    load_mus_tracks ex_db ex_fs (Some (Str "train")) (Some "valid") []
      = Ok (tracks, h') /\
    t ∈ tracks /\ h' !! 0%nat = Some s /\
    Source.name s = "drums" /\
    Source.path s = ["data"; "train"; "drums"; "Song B"; "0"; "drums.wav"].
Proof.
  destruct (load_mus_tracks ex_db ex_fs (Some (Str "train")) (Some "valid") [])
    as [[[|t tracks] h']|] eqn:Hl; try by vm_compute in Hl.
  assert (t ∈ t :: tracks) as Ht by left.
  assert (dict_get "drums" (MultiTrack.sources t) = Some 0%nat) as Hget.
  { vm_compute in Hl. by injection Hl as <- _ _. }
  destruct (indexed_source_attributes ex_db ex_fs (Some (Str "train"))
              (Some "valid") [] (t :: tracks) h' t "drums" 0%nat Hl Ht Hget)
    as (s & folder & file & Hs & Hin & Hp & Hn & Hsp & _).
  exists (t :: tracks), h', t, s.
  split; [reflexivity|]. split; [exact Ht|]. split; [exact Hs|].
  split; [exact Hn|].
  vm_compute in Hl. injection Hl as <- _ <-.
  by injection Hs as <-.
Defined.

(** X8: after indexing, a source of a returned track holds the gain of the
    last target specification entry that declares its name, as a float, and
    the initial 1.0 when no target declares it; the tracks indexed later do
    not change it. *)
Theorem indexed_source_gain self fs subsets split h tracks h' t src a :
  load_mus_tracks self fs subsets split h = Ok (tracks, h') ->
  t ∈ tracks -> dict_get src (MultiTrack.sources t) = Some a ->
  exists s,
    h' !! a = Some s /\
    (forall pre name spec post x,
       Setup.targets (DB.setup self) = pre ++ (name, spec) :: post ->
       NoDup (keys spec) -> (src, x) ∈ spec ->
       (forall it, it ∈ post -> src ∉ keys it.2) ->
       py_float x = Some (Source.gain s)) /\
    ((forall it, it ∈ Setup.targets (DB.setup self) -> src ∉ keys it.2) ->
     Source.gain s = 1%float).
Proof.
  intros (_ & _ & Hall & _)%load_mus_tracks_store Ht Hget.
  rewrite Forall_forall in Hall.
  destruct (Hall t Ht) as (tf & fnum & _ & _ & Hc).
  destruct (Hc _ _ Hget) as (_ & s & file & Hl & _ & _ & Hfinal).
  exists s. split; [done|]. exact Hfinal.
Qed.

Lemma indexed_source_gain_witness :
  exists tracks h' t s,
    load_mus_tracks ex_db ex_fs (Some (Str "train")) None [] = Ok (tracks, h') /\
    tracks !! 0%nat = Some t /\ h' !! 0%nat = Some s /\
    Source.gain s = 0.5%float.
Proof.
  destruct (load_mus_tracks ex_db ex_fs (Some (Str "train")) None [])
    as [[[|t tracks] h']|] eqn:Hl; try by vm_compute in Hl.
  assert (t ∈ t :: tracks) as Ht by left.
  assert (dict_get "drums" (MultiTrack.sources t) = Some 0%nat) as Hget.
  { vm_compute in Hl. by injection Hl as <- _ _. }
  destruct (indexed_source_gain ex_db ex_fs (Some (Str "train")) None []
              (t :: tracks) h' t "drums" 0%nat Hl Ht Hget)
    as (s & Hs & Hlast & _).
  exists (t :: tracks), h', t, s.
  split; [reflexivity|]. split; [reflexivity|]. split; [exact Hs|].
  enough (py_float (NFloat 0.5) = Some (Source.gain s)) as Hx
    by (by injection Hx).
  apply (Hlast [("drums", [("drums", NInt 1)])] "accompaniment"
               [("drums", NFloat 0.5); ("bass", NInt 1)] [] (NFloat 0.5)).
  - reflexivity.
  - unfold keys. simpl. repeat constructor; rewrite ?not_elem_of_cons;
      repeat split; try discriminate; apply not_elem_of_nil.
  - left.
  - by intros it ?%elem_of_nil.
Defined.

(** ** [create_targets] on any track *)

(** X9: [create_targets] returns, for every track and store, exactly when
    [float(gain)] is defined for every gain that a target declares for a
    source of the track, and raises the [OverflowError] of line 233
    otherwise (the lookups of lines 233-235 are guarded by the membership
    test of line 231 and cannot fail).  When it returns it keeps the size of
    the store, changes no attribute but [gain], leaves every object that the
    track's [sources] does not reference as it was, and every target it
    returns is named by its key, declared in the configuration and has a
    non-empty source list. *)
Theorem create_targets_only_sets_gains self track h :
  (gains_convert (keys (MultiTrack.sources track))
                 (Setup.targets (DB.setup self)) ->
   exists targets h',
     create_targets self track h = Ok (targets, h') /\
     length h' = length h /\
     (forall a s, h !! a = Some s ->
        exists s', h' !! a = Some s' /\
                   Source.name s' = Source.name s /\
                   Source.path s' = Source.path s /\
                   Source.stem_id s' = Source.stem_id s /\
                   Source.sample_rate s' = Source.sample_rate s) /\
     (forall a, (forall src, dict_get src (MultiTrack.sources track) ≠ Some a) ->
                h' !! a = h !! a) /\
     (forall name tg, (name, tg) ∈ targets ->
        Target.name tg = name /\ Target.sources tg ≠ [] /\
        name ∈ keys (Setup.targets (DB.setup self)))) /\
  (~ gains_convert (keys (MultiTrack.sources track))
                   (Setup.targets (DB.setup self)) ->
   create_targets self track h = Raise OverflowError).
Proof.
  rewrite create_targets_eq. split; intros Hconv.
  2:{ destruct (gains_overflow _ _) eqn:Hov; [done|].
      by apply gains_overflow_false in Hov. }
  rewrite (proj2 (gains_overflow_false _ _) Hconv).
  eexists _, _. split; [done|].
  split; [apply gains_all_length|]. split; [|split].
  - intros a s Ha.
    destruct (gains_all_same (MultiTrack.sources track)
                (Setup.targets (DB.setup self)) h a s Ha)
      as (s' & Hs' & H1 & H2 & H3 & H4).
    exists s'. by repeat split.
  - intros a Hno. apply gains_all_other. intros it p _ _. apply Hno.
  - intros name tg Hin.
    apply targets_fold_elem in Hin as [Hin|(spec & Hin & Ht)];
      [by apply elem_of_nil in Hin|].
    apply target_of_Some in Ht as (_ & Hne & ->). simpl.
    split; [done|]. split; [done|].
    apply list_elem_of_fmap. by exists (name, spec).
Qed.

Lemma create_targets_only_sets_gains_witness :
  let track (db : DB.t) :=
    MultiTrack.set_sources [("drums", 0%nat)]
      (new_MultiTrack "Song A" [] "train" true 0 None) in
  let drums := {| Source.name := "drums"; Source.path := [];
                  Source.stem_id := 1; Source.sample_rate := None;
                  Source.gain := 1%float |} in
  (exists targets h',
     create_targets ex_db (track ex_db) [drums] = Ok (targets, h') /\
     length h' = 1%nat) /\
  create_targets ex_db_big (track ex_db_big) [drums] = Raise OverflowError.
Proof.
  intros track drums. split.
  - destruct (create_targets_only_sets_gains ex_db (track ex_db) [drums])
      as [Hok _].
    destruct Hok as (targets & h' & Hrun & Hlen & _);
      [by apply gains_overflow_false|].
    by exists targets, h'.
  - destruct (create_targets_only_sets_gains ex_db_big (track ex_db_big)
                [drums]) as [_ Hbad].
    apply Hbad. intros Hconv%gains_overflow_false.
    vm_compute in Hconv. discriminate.
Defined.

(** ** Construction *)

(** X10: constructing the object raises [RuntimeError] exactly when no root
    is given or when [split] is given with subsets other than [["train"]];
    no other step of the construction raises that exception. *)
Theorem DB_init_runtime_error root setup is_wav subsets split sample_rate
    data_path instrument fs h :
  (exists msg,
     DB_init root setup is_wav subsets split sample_rate data_path instrument
             fs h = Raise (RuntimeError msg)) <->
  (root = None \/ (split ≠ None /\ normalize_subsets subsets ≠ ["train"])).
Proof.
  unfold DB_init. destruct root as [root|].
  2:{ split; [by left|]. intros _. by eexists. }
  unfold bind. rewrite load_mus_tracks_eq.
  destruct (decide _) as [[H1 H2]|Hn].
  - split; [by right|]. intros _. by eexists.
  - split.
    + intros [msg Hr].
      destruct (for_ _ _ _ _) as [[tracks h1]|e] eqn:Hl; [done|].
      injection Hr as ->.
      apply for_raise in Hl as (subset & s1 & h1 & _ & Hl).
      by apply add_subset_raise in Hl as [[[k [=]]|[=]]|[=]].
    + intros [[=]|[H1 H2]]. destruct Hn. by split.
Qed.

(** ** Index lookup and indexing compose *)

Lemma indices_loop_ok {St} (catalog requested : list string) acc (st : St)
    idxs st' :
  for_ requested (index_step catalog) acc st = Ok (idxs, st') ->
  forall name, name ∈ requested -> name ∈ catalog.
Proof.
  intros Hrun name Hin. destruct (decide (name ∈ catalog)) as [|Hno]; [done|].
  by rewrite (indices_loop_absent catalog requested acc st name Hin Hno)
    in Hrun.
Qed.

Lemma DB_getitem_nat self (i : nat) t :
  DB.tracks self !! i = Some t -> DB_getitem self (Z.of_nat i) = Some t.
Proof.
  intros Hi. pose proof (lookup_lt_Some _ _ _ Hi) as Hlt.
  unfold DB_getitem.
  destruct (Z.ltb_spec (Z.of_nat i) 0) as [?|_]; [lia|]. simpl.
  destruct (Z.ltb_spec (Z.of_nat i) 0) as [?|_]; [lia|].
  destruct (Z.leb_spec (Z.of_nat (length (DB.tracks self))) (Z.of_nat i))
    as [?|_]; [lia|].
  simpl. by rewrite Nat2Z.id.
Qed.

(** X11: the indices that the lookup returns are valid positions of the
    catalog, and indexing the object with the [k]-th returned index gives a
    track that bears the [k]-th requested name. *)
Theorem lookup_then_getitem {St} self names (st : St) idxs st' :
  get_track_indices_by_names self names st = Ok (idxs, st') ->
  Forall2 (fun name i =>
             (i < DB_len self)%nat /\
             exists t, DB_getitem self (Z.of_nat i) = Some t /\
                       MultiTrack.name t = name)
          (match names with Str s => [s] | List l => l end) idxs.
Proof.
  unfold get_track_indices_by_names. intros Hrun.
  set (requested := match names with Str s => [s] | List l => l end) in *.
  set (catalog := MultiTrack.name <$> DB.tracks self) in *.
  change (for_ requested (index_step (St:=St) catalog) [] st
          = Ok (idxs, st')) in Hrun.
  destruct (indices_loop catalog requested [] st
              (indices_loop_ok _ _ _ _ _ _ Hrun)) as (idxs' & Hrun' & HF).
  rewrite Hrun in Hrun'. injection Hrun' as -> _.
  eapply Forall2_impl; [exact HF|]. intros name i [Hi _].
  unfold catalog in Hi. rewrite list_lookup_fmap in Hi.
  destruct (DB.tracks self !! i) as [t|] eqn:Ht; [|done].
  injection Hi as <-. split.
  - by eapply lookup_lt_Some.
  - exists t. split; [by apply DB_getitem_nat|done].
Qed.

Lemma lookup_then_getitem_witness :
  let db := DB.set_tracks
              [new_MultiTrack "Song A" [] "train" true 0 None;
               new_MultiTrack "Song A" [] "train" true 0 None;
               new_MultiTrack "Song B" [] "train" true 0 None] ex_db in
  exists t, DB_getitem db 2 = Some t /\ MultiTrack.name t = "Song B".
Proof.
  intros db.
  assert (get_track_indices_by_names db (Str "Song B") tt = Ok ([2%nat], tt))
    as Hrun by reflexivity.
  pose proof (lookup_then_getitem db (Str "Song B") tt [2%nat] tt Hrun) as HF.
  inversion HF as [|? ? ? ? [_ Ht] _]; subst. exact Ht.
Defined.

(** X12: when the track names of the catalog are pairwise distinct, looking
    up the names of all tracks, in catalog order, returns the positions
    [0, 1, ..., len - 1]. *)
Theorem lookup_of_all_names {St} self (st : St) :
  NoDup (MultiTrack.name <$> DB.tracks self) ->
  get_track_indices_by_names self (List (MultiTrack.name <$> DB.tracks self)) st
  = Ok (seq 0 (DB_len self), st).
Proof.
  intros Hnd. unfold get_track_indices_by_names, DB_len.
  set (catalog := MultiTrack.name <$> DB.tracks self) in *.
  change (for_ catalog (index_step (St:=St) catalog) [] st
          = Ok (seq 0 (length (DB.tracks self)), st)).
  replace (length (DB.tracks self)) with (length catalog)
    by apply length_fmap.
  assert (forall requested k acc,
            (forall i name, requested !! i = Some name ->
                            catalog !! (k + i)%nat = Some name) ->
            for_ requested (index_step catalog) acc st
            = Ok (acc ++ seq k (length requested), st)) as Hloop.
  { induction requested as [|name l IH]; intros k acc Hpos.
    - simpl. by rewrite app_nil_r.
    - rewrite for_cons, index_step_eq.
      pose proof (Hpos 0%nat name eq_refl) as Hk. rewrite Nat.add_0_r in Hk.
      destruct (list_index name catalog) as [i|] eqn:Hi.
      + apply list_index_Some in Hi as [Hi _].
        rewrite (NoDup_lookup _ _ _ _ Hnd Hi Hk).
        rewrite (IH (S k)).
        * simpl. by rewrite <- app_assoc.
        * intros j n Hj. replace (S k + j)%nat with (k + S j)%nat by lia.
          by apply (Hpos (S j)).
      + apply list_index_None in Hi. destruct Hi.
        by eapply list_elem_of_lookup_2. }
  apply (Hloop catalog 0%nat []). by intros i name.
Qed.

Lemma lookup_of_all_names_witness :
  let db := DB.set_tracks
              [new_MultiTrack "Song A" [] "train" true 0 None;
               new_MultiTrack "Song B" [] "train" true 0 None] ex_db in
  get_track_indices_by_names db (List ["Song A"; "Song B"]) tt
  = Ok ([0; 1]%nat, tt).
Proof.
  intros db. apply (lookup_of_all_names db tt).
  simpl. repeat constructor; rewrite ?not_elem_of_cons;
    repeat split; try discriminate; apply not_elem_of_nil.
Defined.

(** ** The estimate writer: stem mode, failures and what is left alone *)

Lemma makedirs_blocked p n :
  dirs_along p n = false -> lookup_path p n = None ->
  makedirs p n = Raise OSError.
Proof.
  revert n. induction p as [|c p IH]; intros n; simpl; [done|].
  destruct n as [|es]; [done|].
  destruct (dict_get c es) as [ch|]; [|done].
  intros Hd Hl. by rewrite (IH ch Hd Hl).
Qed.

(** A node found at the end of a path that is not all directories is a
    regular file. *)
Lemma dirs_along_false_lookup p n m :
  dirs_along p n = false -> lookup_path p n = Some m -> is_dir m = false.
Proof.
  revert n. induction p as [|c p IH]; intros n; simpl.
  - destruct n; [by intros _ [= <-]|done].
  - destruct n as [|es]; [done|].
    destruct (dict_get c es) as [ch|]; [apply IH|done].
Qed.

Lemma write_file_below_file p c f n :
  (forall es, lookup_path p n ≠ Some (Dir es)) ->
  write_file (p ++ [c]) f n = Raise OSError.
Proof.
  revert n. induction p as [|c' p IH]; intros n Hno; simpl.
  - destruct n as [|es]; [done|]. by destruct (Hno es).
  - destruct n as [|es]; [done|].
    destruct (dict_get c' es) as [ch|] eqn:Hc.
    + rewrite IH.
      * by destruct (p ++ [c]) eqn:E; [destruct p|].
      * intros es'. specialize (Hno es'). simpl in Hno. by rewrite Hc in Hno.
    + by destruct (p ++ [c]) eqn:E; [destruct p|].
Qed.

(** X13: when a regular file stands where the track directory or one of its
    parents should be, [save_estimates] with at least one estimate raises
    [OSError]: [os.makedirs] fails on the blocked path, or, the file being at
    the directory path itself, the existence test passes and the first write
    fails. *)
Theorem save_estimates_blocked self (user_estimates : dict buffer) track
    estimates_dir fs :
  dirs_along (op_join estimates_dir
                [MultiTrack.subset track; MultiTrack.name track]) fs = false ->
  user_estimates ≠ [] ->
  save_estimates self user_estimates track estimates_dir false fs
  = Raise OSError.
Proof.
  intros Hd Hne. unfold save_estimates, bind.
  set (dir := op_join estimates_dir
                [MultiTrack.subset track; MultiTrack.name track]) in *.
  unfold os_path_exists, os_makedirs.
  destruct (lookup_path dir fs) as [m|] eqn:Hl; simpl.
  - destruct user_estimates as [|[t buf] l]; [done|].
    rewrite for_cons. unfold write_audio at 1, op_join.
    rewrite write_file_below_file; [done|].
    intros es. rewrite Hl. intros [= ->].
    by pose proof (dirs_along_false_lookup _ _ _ Hd Hl).
  - by rewrite makedirs_blocked.
Qed.

Lemma save_estimates_blocked_witness :
  save_estimates ex_db [("vocals", [1; 2; 3])]
    (new_MultiTrack "Song A" [] "test" true 0 None) ["out"] false
    (Dir [("out", Dir [("test", wav)])])
  = Raise OSError.
Proof.
  apply (save_estimates_blocked ex_db [("vocals", [1; 2; 3])]
           (new_MultiTrack "Song A" [] "test" true 0 None) ["out"]
           (Dir [("out", Dir [("test", wav)])])).
  - reflexivity.
  - discriminate.
Defined.

(** X14: with [write_stems=True] the estimates are dropped: the call only
    makes sure that the track directory exists.  Where no regular file is in
    the way it returns, an existing directory leaves the tree unchanged, a
    missing one is created empty, and the outcome is that of the call
    without estimates in the default mode. *)
Theorem save_estimates_stems_writes_nothing self (user_estimates : dict buffer)
    track estimates_dir fs :
  let dir := op_join estimates_dir
                     [MultiTrack.subset track; MultiTrack.name track] in
  dirs_along dir fs = true ->
  exists fs',
    save_estimates self user_estimates track estimates_dir true fs
      = Ok (tt, fs') /\
    save_estimates self [] track estimates_dir false fs = Ok (tt, fs') /\
    (os_path_exists fs dir = true -> fs' = fs) /\
    (os_path_exists fs dir = false -> lookup_path dir fs' = Some (Dir [])).
Proof.
  intros dir Hd. unfold save_estimates, bind. fold dir.
  unfold os_path_exists, os_makedirs.
  destruct (lookup_path dir fs) as [m|] eqn:Hl; simpl.
  - exists fs. by repeat split.
  - destruct (makedirs_ok _ _ Hd Hl) as (fs1 & -> & Hl1).
    exists fs1. by repeat split.
Qed.

Lemma save_estimates_stems_writes_nothing_witness :
  exists fs',
    save_estimates ex_db [("vocals", [1; 2; 3])]
      (new_MultiTrack "Song A" [] "test" true 0 None) ["out"] true (Dir [])
    = Ok (tt, fs') /\
    lookup_path ["out"; "test"; "Song A"] fs' = Some (Dir []).
Proof.
  destruct (save_estimates_stems_writes_nothing ex_db [("vocals", [1; 2; 3])]
              (new_MultiTrack "Song A" [] "test" true 0 None) ["out"] (Dir []))
    as (fs' & Hrun & _ & _ & Hnew); [reflexivity|].
  exists fs'. split; [exact Hrun|]. by apply Hnew.
Defined.

Lemma prefix_snoc_inv (p q : pathname) c :
  p `prefix_of` q ++ [c] -> p `prefix_of` q \/ p = q ++ [c].
Proof.
  intros [k Hk]. destruct k as [|x k _] using rev_ind.
  - right. by rewrite app_nil_r in Hk.
  - left. rewrite app_assoc in Hk. apply app_inj_tail in Hk as [-> _].
    by exists k.
Qed.

Lemma lookup_fresh_dirs_other p q :
  ~ p `prefix_of` q -> lookup_path p (fresh_dirs q) = None.
Proof.
  revert p. induction q as [|c q IH]; intros [|c' p] Hno; simpl.
  - destruct Hno. apply prefix_nil.
  - done.
  - destruct Hno. apply prefix_nil.
  - destruct (String.eqb_spec c' c) as [-> |]; [|done].
    apply IH. intros Hp. apply Hno. by apply prefix_cons.
Qed.

(** [os.makedirs] changes no path but the created directory and its
    parents. *)
Lemma makedirs_frame q n n1 p :
  makedirs q n = Ok n1 -> ~ p `prefix_of` q ->
  lookup_path p n1 = lookup_path p n.
Proof.
  revert n n1 p. induction q as [|c q IH]; intros n n1 p; simpl; [done|].
  destruct n as [|es]; [done|].
  destruct (dict_get c es) as [ch|] eqn:Hc.
  - destruct (makedirs q ch) as [ch'|] eqn:Hmk; [|done].
    intros [= <-] Hno. destruct p as [|c' p]; [destruct Hno; apply prefix_nil|].
    simpl. rewrite dict_get_set.
    destruct (String.eqb_spec c' c) as [-> |]; [|done].
    rewrite Hc. apply (IH _ _ _ Hmk). intros Hp. apply Hno.
    by apply prefix_cons.
  - intros [= <-] Hno. destruct p as [|c' p]; [destruct Hno; apply prefix_nil|].
    simpl. rewrite dict_get_set.
    destruct (String.eqb_spec c' c) as [-> |]; [|done].
    rewrite Hc. apply lookup_fresh_dirs_other. intros Hp. apply Hno.
    by apply prefix_cons.
Qed.

(** The codec's write changes no path but the file, what was below it, and
    the directories above it. *)
Lemma write_file_frame q f n n1 p :
  write_file q f n = Ok n1 ->
  ~ p `prefix_of` q -> ~ q `prefix_of` p ->
  lookup_path p n1 = lookup_path p n.
Proof.
  revert n n1 p. induction q as [|c q IH]; intros n n1 p; simpl; [done|].
  destruct n as [|es]; [done|]. intros Hw Hpq Hqp.
  destruct p as [|c' p]; [destruct Hpq; apply prefix_nil|].
  assert (c' = c -> ~ p `prefix_of` q /\ ~ q `prefix_of` p) as Hsub.
  { intros ->. split; intros Hp; [apply Hpq|apply Hqp]; by apply prefix_cons. }
  destruct q as [|c2 q].
  - destruct (dict_get c es) as [[|es']|] eqn:Hc; try done;
      injection Hw as <-; simpl; rewrite dict_get_set;
      (destruct (String.eqb_spec c' c) as [-> |]; [|done]);
      destruct (Hsub eq_refl) as [_ Hq]; destruct Hq; apply prefix_nil.
  - destruct (dict_get c es) as [ch|] eqn:Hc; [|done].
    destruct (write_file (c2 :: q) f ch) as [ch'|] eqn:Hw'; [|done].
    injection Hw as <-. simpl. rewrite dict_get_set.
    destruct (String.eqb_spec c' c) as [-> |]; [|done].
    rewrite Hc. destruct (Hsub eq_refl) as [H1 H2]. by apply (IH _ _ _ Hw').
Qed.

(** X15: a returning [save_estimates] leaves alone every path that is
    neither the track directory or one of its parents nor one of the written
    [.wav] files (or below one): other files of the track directory and the
    rest of the tree keep their content. *)
Theorem save_estimates_frame self (user_estimates : dict buffer) track
    estimates_dir write_stems fs fs' p :
  let dir := op_join estimates_dir
                     [MultiTrack.subset track; MultiTrack.name track] in
  save_estimates self user_estimates track estimates_dir write_stems fs
    = Ok (tt, fs') ->
  ~ p `prefix_of` dir ->
  (forall target, target ∈ keys user_estimates ->
     ~ op_join dir [String.append target ".wav"] `prefix_of` p) ->
  lookup_path p fs' = lookup_path p fs.
Proof.
  intros dir. unfold save_estimates, bind. fold dir.
  intros Hrun Hdir Hfiles.
  assert (exists fs1,
            (if negb (os_path_exists fs dir) then os_makedirs dir fs
             else ret tt fs) = Ok (tt, fs1) /\
            lookup_path p fs1 = lookup_path p fs) as (fs1 & Hmk & H1).
  { destruct (negb (os_path_exists fs dir)).
    - unfold os_makedirs in *.
      destruct (makedirs dir fs) as [fs1|] eqn:Hm; [|done].
      exists fs1. split; [done|]. by eapply makedirs_frame.
    - by exists fs. }
  rewrite Hmk in Hrun. rewrite <- H1.
  destruct write_stems; [by injection Hrun as <-|].
  revert Hrun. apply (for_inv (fun _ _ fs2 =>
    lookup_path p fs2 = lookup_path p fs1)); [done|].
  intros _ [t buf] [] fs2 [] fs3 Hin HI Hstep. rewrite <- HI.
  unfold write_audio in Hstep.
  destruct (write_file _ _ fs2) as [fs3'|] eqn:Hw; [|done].
  injection Hstep as <-. apply (write_file_frame _ _ _ _ _ Hw).
  - intros [Hp| ->]%prefix_snoc_inv; [done|].
    apply (Hfiles t); [|done]. apply list_elem_of_fmap. by exists (t, buf).
  - apply Hfiles. apply list_elem_of_fmap. by exists (t, buf).
Qed.

Lemma save_estimates_frame_witness :
  let track := new_MultiTrack "Song A" [] "test" true 0 None in
  let fs := Dir [("out", Dir [("test", Dir [("Song A", Dir [
                    ("notes.txt", File [7] None)])])])] in
  exists fs',
    save_estimates ex_db [("vocals", [1; 2; 3])] track ["out"] false fs
      = Ok (tt, fs') /\
    lookup_path ["out"; "test"; "Song A"; "notes.txt"] fs'
      = Some (File [7] None).
Proof.
  intros track fs.
  destruct (save_estimates ex_db [("vocals", [1; 2; 3])] track ["out"] false fs)
    as [[[] fs']|] eqn:Hrun; [|by vm_compute in Hrun].
  exists fs'. split; [reflexivity|].
  rewrite (save_estimates_frame ex_db [("vocals", [1; 2; 3])] track ["out"]
             false fs fs' ["out"; "test"; "Song A"; "notes.txt"] Hrun).
  - reflexivity.
  - intros [k Hk]. simpl in Hk. discriminate.
  - intros target Hin [k Hk].
    apply list_elem_of_singleton in Hin as ->. simpl in Hk. discriminate.
Defined.

(** ** Order of the sources of a track and of the subsets of a catalog *)

Lemma sources_loop_keys self fs tf fnum (l : list (string * string)) sources
    h sources' h' :
  NoDup (keys sources ++ keys l) ->
  for_ l (add_source self fs tf fnum) sources h = Ok (sources', h') ->
  keys sources'
  = keys sources
    ++ (filter (fun it => os_path_exists fs (op_join tf [fnum; it.2]) = true)
               l).*1.
Proof.
  revert sources h. induction l as [|[src file] l IH]; intros sources h Hnd.
  - simpl. intros [= <- <-]. by rewrite app_nil_r.
  - rewrite for_cons.
    destruct (add_source self fs tf fnum (src, file) sources h)
      as [[s1 h1]|] eqn:Hstep; [|done].
    unfold keys in Hnd. rewrite fmap_cons in Hnd. simpl in Hnd.
    assert (src ∉ keys sources) as Hfresh.
    { apply NoDup_app in Hnd as (_ & Hdis & _).
      intros Hin. apply (Hdis _ Hin). left. }
    apply add_source_ok in Hstep as [(Hex & -> & _)|(Hex & -> & ->)].
    + intros Hrun. apply IH in Hrun.
      * rewrite Hrun, dict_set_fresh by done.
        rewrite filter_cons_True by exact Hex.
        unfold keys. rewrite fmap_app, fmap_cons. simpl.
        by rewrite <- app_assoc.
      * rewrite dict_set_fresh by done. unfold keys.
        rewrite fmap_app. simpl. by rewrite <- app_assoc.
    + intros Hrun. apply IH in Hrun.
      * rewrite Hrun, filter_cons_False; [done|]. simpl. by rewrite Hex.
      * apply NoDup_app in Hnd as (H1 & H2 & H3).
        apply NoDup_app. split; [done|]. split.
        -- intros x Hx Hx'. apply (H2 x Hx). by right.
        -- by apply NoDup_cons in H3 as [_ ?].
Qed.

Lemma add_track_source_keys self fs subset name tf fnum tracks h tracks' h' :
  NoDup (keys (Setup.sources (DB.setup self))) ->
  add_track self fs subset name tf fnum tracks h = Ok (tracks', h') ->
  exists t,
    tracks' = tracks ++ [t] /\
    keys (MultiTrack.sources t)
    = (filter (fun it => os_path_exists fs (op_join tf [fnum; it.2]) = true)
              (Setup.sources (DB.setup self))).*1.
Proof.
  intros Hnd. unfold add_track, bind.
  rewrite getitem_eq. destruct (dict_get _ _) as [sid|]; [|done].
  rewrite getattr_sample_rate_eq. destruct (DB.sample_rate self); [|done].
  destruct (for_ _ _ _ _) as [[sources h1]|] eqn:Hs; [|done].
  rewrite create_targets_eq.
  destruct (gains_overflow _ _) eqn:Hov; [done|]. intros [= <- <-].
  eexists. split; [done|]. simpl.
  by apply (sources_loop_keys _ _ _ _ _ [] h sources h1) in Hs.
Qed.

(** X16: with unique declared source names, the [sources] mapping of every
    track of a returned catalog lists, in configuration order, exactly the
    declared sources whose file exists below the track's variant folder. *)
Theorem sources_in_configuration_order self fs subsets split h tracks h' :
  NoDup (keys (Setup.sources (DB.setup self))) ->
  load_mus_tracks self fs subsets split h = Ok (tracks, h') ->
  Forall2
    (fun t k =>
       keys (MultiTrack.sources t)
       = (filter (fun it =>
                    os_path_exists fs
                      (op_join (track_folder_of self k.1.1 k.1.2) [k.2; it.2])
                    = true)
                 (Setup.sources (DB.setup self))).*1)
    tracks (track_keys self fs subsets split).
Proof.
  intros Hnd. apply load_mus_tracks_catalog.
  intros k tracks0 h0 tracks1 h1 t Hk ->. unfold add_track_key in Hk.
  by apply (add_track_source_keys _ _ _ _ _ _ _ _ _ _ Hnd) in Hk
    as (t' & <-%app_inj_tail_iff%proj2 & Hkeys).
Qed.

Lemma sources_in_configuration_order_witness :
  exists tracks h',
    load_mus_tracks ex_db ex_fs (Some (Str "train")) None [] = Ok (tracks, h') /\
    (fun t => keys (MultiTrack.sources t)) <$> tracks
    = [["drums"; "bass"]; ["bass"]; ["drums"]].
Proof.
  destruct (load_mus_tracks ex_db ex_fs (Some (Str "train")) None [])
    as [[tracks h']|] eqn:Hl; [|by vm_compute in Hl].
  exists tracks, h'. split; [reflexivity|].
  assert (NoDup (keys (Setup.sources (DB.setup ex_db)))) as Hnd.
  { unfold keys. simpl. repeat constructor; rewrite ?not_elem_of_cons;
      repeat split; try discriminate; apply not_elem_of_nil. }
  pose proof (sources_in_configuration_order ex_db ex_fs (Some (Str "train"))
                None [] tracks h' Hnd Hl) as HF.
  apply Forall2_fmap_eq in HF. rewrite HF. reflexivity.
Defined.

Lemma track_keys_app self fs s1 s2 s3 split :
  normalize_subsets s3 = normalize_subsets s1 ++ normalize_subsets s2 ->
  track_keys self fs s3 split
  = track_keys self fs s1 split ++ track_keys self fs s2 split.
Proof. unfold track_keys. intros ->. apply flat_map_app. Qed.

(** X17: the catalog follows the caller's subset order: when the subsets of
    one call are those of two other calls one after the other, the tracks of
    its catalog are, by subset, name and path, those of the first call
    followed by those of the second; the default call lists the "train"
    catalog before the "test" catalog. *)
Theorem catalog_follows_subset_order self fs s1 s2 s3 split h1 h2 h3
    t1 t2 t3 h1' h2' h3' :
  normalize_subsets s3 = normalize_subsets s1 ++ normalize_subsets s2 ->
  load_mus_tracks self fs s1 split h1 = Ok (t1, h1') ->
  load_mus_tracks self fs s2 split h2 = Ok (t2, h2') ->
  load_mus_tracks self fs s3 split h3 = Ok (t3, h3') ->
  (fun t => (MultiTrack.subset t, MultiTrack.name t, MultiTrack.path t))
    <$> t3
  = ((fun t => (MultiTrack.subset t, MultiTrack.name t, MultiTrack.path t))
       <$> t1)
    ++ ((fun t => (MultiTrack.subset t, MultiTrack.name t, MultiTrack.path t))
          <$> t2).
Proof.
  intros Hs H1 H2 H3.
  rewrite (load_mus_tracks_entries _ _ _ _ _ _ _ H1).
  rewrite (load_mus_tracks_entries _ _ _ _ _ _ _ H2).
  rewrite (load_mus_tracks_entries _ _ _ _ _ _ _ H3).
  by rewrite (track_keys_app _ _ s1 s2 s3 _ Hs), fmap_app.
Qed.

Lemma catalog_follows_subset_order_witness :
  exists t1 t2 t3 h1 h2 h3,
    load_mus_tracks ex_db ex_fs (Some (Str "train")) None [] = Ok (t1, h1) /\
    load_mus_tracks ex_db ex_fs (Some (Str "test")) None [] = Ok (t2, h2) /\
    load_mus_tracks ex_db ex_fs None None [] = Ok (t3, h3) /\
    MultiTrack.name <$> t3
    = (MultiTrack.name <$> t1) ++ (MultiTrack.name <$> t2).
Proof.
  destruct (load_mus_tracks ex_db ex_fs (Some (Str "train")) None [])
    as [[t1 h1]|] eqn:H1; [|by vm_compute in H1].
  destruct (load_mus_tracks ex_db ex_fs (Some (Str "test")) None [])
    as [[t2 h2]|] eqn:H2; [|by vm_compute in H2].
  destruct (load_mus_tracks ex_db ex_fs None None [])
    as [[t3 h3]|] eqn:H3; [|by vm_compute in H3].
  exists t1, t2, t3, h1, h2, h3. repeat split.
  pose proof (catalog_follows_subset_order ex_db ex_fs (Some (Str "train"))
                (Some (Str "test")) None None [] [] [] t1 t2 t3 h1 h2 h3
                eq_refl H1 H2 H3) as He.
  apply (f_equal (fmap (fun e : string * string * pathname => e.1.2))) in He.
  rewrite fmap_app, <- !list_fmap_compose in He. exact He.
Defined.

(** ** The exceptions of indexing *)




(** ** Estimates of tracks that share subset and name *)

Lemma write_file_lookup q f n n1 :
  write_file q f n = Ok n1 -> lookup_path q n1 = Some f.
Proof.
  revert n n1. induction q as [|c q IH]; intros n n1; simpl; [done|].
  destruct n as [|es]; [done|]. destruct q as [|c2 q].
  - destruct (dict_get c es) as [[|es']|]; try done;
      intros [= <-]; simpl; by rewrite dict_get_set, String.eqb_refl.
  - destruct (dict_get c es) as [ch|]; [|done].
    destruct (write_file (c2 :: q) f ch) as [ch'|] eqn:Hw; [|done].
    intros [= <-]. simpl lookup_path at 1.
    rewrite dict_get_set, String.eqb_refl. by apply (IH _ _ Hw).
Qed.

(** What a returning write loop leaves at the path of each estimate. *)
Lemma write_loop_files dir rate (estimates : list (string * buffer)) fs fs' :
  NoDup estimates.*1 ->
  for_ estimates
       (fun '(target, estimate) _ =>
          write_audio (op_join dir [String.append target ".wav"])
                      estimate rate)
       tt fs = Ok (tt, fs') ->
  forall target estimate,
    (target, estimate) ∈ estimates ->
    lookup_path (op_join dir [String.append target ".wav"]) fs'
    = Some (File estimate rate).
Proof.
  revert fs. induction estimates as [|[t buf] l IH]; intros fs Hnd Hrun.
  - by intros ? ? ?%elem_of_nil.
  - rewrite for_cons in Hrun. unfold write_audio at 1 in Hrun.
    destruct (write_file _ _ fs) as [fs1|] eqn:Hw; [|done].
    rewrite fmap_cons in Hnd. apply NoDup_cons in Hnd as [Hfresh Hnd].
    intros target estimate [[= -> ->]|Hin]%elem_of_cons; [|by eapply IH].
    apply write_file_lookup in Hw. rewrite <- Hw. revert Hrun.
    apply (for_inv (fun _ _ fs2 =>
      lookup_path (op_join dir [String.append t ".wav"]) fs2
      = lookup_path (op_join dir [String.append t ".wav"]) fs1)); [done|].
    intros _ [t' buf'] [] fs2 [] fs3 Hin' HI Hstep. rewrite <- HI.
    unfold write_audio in Hstep.
    destruct (write_file _ _ fs2) as [fs3'|] eqn:Hw'; [|done].
    injection Hstep as <-.
    assert (t' ≠ t) as Hne.
    { intros ->. apply Hfresh. apply list_elem_of_fmap. by exists (t, buf'). }
    apply (write_file_frame _ _ _ _ _ Hw'); unfold op_join.
    + intros Hp%prefix_app_inv%prefix_cons_inv_1.
      by apply append_inj_r in Hp.
    + intros Hp%prefix_app_inv%prefix_cons_inv_1.
      by apply append_inj_r in Hp.
Qed.

Lemma save_estimates_files self (user_estimates : dict buffer) track
    estimates_dir fs fs' :
  NoDup (keys user_estimates) ->
  save_estimates self user_estimates track estimates_dir false fs
    = Ok (tt, fs') ->
  forall target estimate,
    (target, estimate) ∈ user_estimates ->
    lookup_path
      (op_join (op_join estimates_dir
                        [MultiTrack.subset track; MultiTrack.name track])
               [String.append target ".wav"]) fs'
    = Some (File estimate (MultiTrack.rate track)).
Proof.
  intros Hnd. unfold save_estimates, bind.
  destruct (if negb _ then _ else _) as [[[] fs1]|]; [|done].
  by apply write_loop_files.
Qed.

(** X19: the directory of a track's estimates depends on its subset and name
    only, so two tracks that share both (two variants of one track name)
    share their estimate files: when estimates are saved for the one and
    then for the other, a target saved for both holds the first buffer after
    the first call and the second buffer, with the second track's rate,
    after the second call. *)
Theorem estimates_of_same_name_collide self (est1 est2 : dict buffer) t1 t2
    estimates_dir fs fs1 fs2 target buf1 buf2 :
  MultiTrack.subset t1 = MultiTrack.subset t2 ->
  MultiTrack.name t1 = MultiTrack.name t2 ->
  NoDup (keys est1) -> NoDup (keys est2) ->
  (target, buf1) ∈ est1 -> (target, buf2) ∈ est2 ->
  save_estimates self est1 t1 estimates_dir false fs = Ok (tt, fs1) ->
  save_estimates self est2 t2 estimates_dir false fs1 = Ok (tt, fs2) ->
  let p := op_join (op_join estimates_dir
                            [MultiTrack.subset t1; MultiTrack.name t1])
                   [String.append target ".wav"] in
  lookup_path p fs1 = Some (File buf1 (MultiTrack.rate t1)) /\
  lookup_path p fs2 = Some (File buf2 (MultiTrack.rate t2)).
Proof.
  intros Hsub Hname Hnd1 Hnd2 Hin1 Hin2 Hrun1 Hrun2 p. subst p. split.
  - by apply (save_estimates_files self est1 t1 estimates_dir fs fs1).
  - rewrite Hsub, Hname.
    by apply (save_estimates_files self est2 t2 estimates_dir fs1 fs2).
Qed.

Lemma estimates_of_same_name_collide_witness :
  let v0 := new_MultiTrack "Song A" ["Song A"; "0"; "mixture.wav"] "test"
                           true 0 None in
  let v1 := new_MultiTrack "Song A" ["Song A"; "1"; "mixture.wav"] "test"
                           true 0 None in
  exists fs1 fs2,
    save_estimates ex_db [("vocals", [1])] v0 ["out"] false (Dir [])
      = Ok (tt, fs1) /\
    save_estimates ex_db [("vocals", [2])] v1 ["out"] false fs1
      = Ok (tt, fs2) /\
    lookup_path ["out"; "test"; "Song A"; "vocals.wav"] fs2
      = Some (File [2] None).
Proof.
  intros v0 v1.
  destruct (save_estimates ex_db [("vocals", [1])] v0 ["out"] false (Dir []))
    as [[[] fs1]|] eqn:H1; [|by vm_compute in H1].
  destruct (save_estimates ex_db [("vocals", [2])] v1 ["out"] false fs1)
    as [[[] fs2]|] eqn:H2.
  2:{ vm_compute in H1. injection H1 as <-. by vm_compute in H2. }
  exists fs1, fs2. split; [reflexivity|]. split; [exact H2|].
  assert (forall b, NoDup (keys [("vocals", b : buffer)])) as Hnd.
  { intros b. unfold keys. simpl. repeat constructor. apply not_elem_of_nil. }
  destruct (estimates_of_same_name_collide ex_db [("vocals", [1])]
              [("vocals", [2])] v0 v1 ["out"] (Dir []) fs1 fs2 "vocals" [1] [2]
              eq_refl eq_refl (Hnd _) (Hnd _)) as [_ Hsecond];
    [left|left|exact H1|exact H2|].
  exact Hsecond.
Defined.

(** ** A variant folder named like its track folder *)

(** X1: the outer [os.walk] is not cut after the instrument folder, so the
    folders inside a track folder are taken as track names too.  When the
    only track folder [n] holds a single variant folder that is also named
    [n] (holding files only), the track is reached twice: the catalog lists
    the same track, with the same path, two times. *)
Theorem variant_named_like_track_is_indexed_twice self fs subset n ws h
    tracks h' :
  lookup_path (op_join (op_join (DB.data_path self) [subset])
                       [DB.instrument self]) fs
    = Some (Dir [(n, Dir [(n, Dir ws)])]) ->
  dirnames ws = [] ->
  DB.is_wav self = true ->
  load_mus_tracks self fs (Some (Str subset)) None h = Ok (tracks, h') ->
  (fun t => (MultiTrack.subset t, MultiTrack.name t, MultiTrack.path t))
    <$> tracks
  = [(subset, n, op_join (track_folder_of self subset n)
                         [n; Setup.mixture (DB.setup self)]);
     (subset, n, op_join (track_folder_of self subset n)
                         [n; Setup.mixture (DB.setup self)])].
Proof.
  intros Hroot Hws Hwav Hl.
  rewrite (load_mus_tracks_entries _ _ _ _ _ _ _ Hl).
  assert (forall v ws', (v, Dir ws') ∈ [(n, Dir ws)] -> dirnames ws' = [])
    as Hflat.
  { by intros v ws' [= -> ->]%list_elem_of_singleton. }
  assert (variants fs (track_folder_of self subset n) = [n]) as Hvar.
  { unfold variants, os_walk.
    rewrite (track_folder_lookup self fs subset _ Hroot). simpl.
    rewrite String.eqb_refl. by rewrite walk_folders_flat. }
  assert (candidates self fs subset = [n; n]) as Hcand.
  { unfold candidates, os_walk. rewrite Hroot, walk_Dir.
    cbn [flat_map fst snd]. rewrite app_nil_r.
    by rewrite walk_folders_flat. }
  unfold track_keys, subset_keys. simpl. rewrite Hwav, Hcand, app_nil_r.
  simpl. unfold name_keys, split_skips.
  rewrite Hvar. by destruct (String.eqb subset "train").
Qed.

Lemma variant_named_like_track_is_indexed_twice_witness :
  let fs := Dir [("data", Dir [("test", Dir [("drums", Dir [
                   ("0", Dir [("0", Dir [("mixture.wav", wav)])])])])])] in
  exists tracks h',
    load_mus_tracks ex_db fs (Some (Str "test")) None [] = Ok (tracks, h') /\
    MultiTrack.path <$> tracks
    = [["data"; "test"; "drums"; "0"; "0"; "mixture.wav"];
       ["data"; "test"; "drums"; "0"; "0"; "mixture.wav"]].
Proof.
  intros fs.
  destruct (load_mus_tracks ex_db fs (Some (Str "test")) None [])
    as [[tracks h']|] eqn:Hl; [|by vm_compute in Hl].
  exists tracks, h'. split; [reflexivity|].
  pose proof (variant_named_like_track_is_indexed_twice ex_db fs "test" "0"
                [("mixture.wav", wav)] [] tracks h'
                eq_refl eq_refl eq_refl Hl) as He.
  apply (f_equal (fmap (fun e : string * string * pathname => e.2))) in He.
  rewrite <- list_fmap_compose in He. exact He.
Defined.
